(** * go_agent: nodes, retrying executors and flows

    A shallow embedding of the workflow engine of the [go_agent] package
    (the file that declares [BaseNode], [Node], [BatchNode], [Flow],
    [BatchFlow], [AsyncNode], [AsyncBatchNode], [AsyncParallelBatchNode]
    and [AsyncFlow]) together with the properties its specification
    states about it.

    Conventions of the embedding.

    - An [interface{}] is a [value]: a tagged union of the dynamic types
      the engine can meet.  A pointer value carries its dynamic Go type,
      because the engine inspects it with type assertions.
    - Maps ([map[string]interface{}]) are [gmap string value].
    - Every node struct embeds a [*BaseNode]; the [BaseNode] structs live
      in a heap addressed by [addr], and methods that mutate a node or
      the shared store are computations in the monad [M] (heap, shared
      store and an event trace passed explicitly).
    - Go has no dynamic dispatch through embedding: a method promoted
      from an embedded struct keeps the embedded struct as its receiver,
      so a call [b.Prep(shared)] written inside a method of [*BaseNode]
      is a call of [BaseNode.Prep], whatever struct embeds that
      [BaseNode].  The bodies below are written over the callee they
      invoke (the [_with] definitions), and the definition named after
      the Go method fixes the callee Go binds. *)

From Stdlib Require Import ZArith String List Lia.
From stdpp Require Import base gmap strings list pretty.

#[local] Set Warnings "-register-all".
#[local] Open Scope Z_scope.
#[local] Open Scope string_scope.
#[local] Open Scope list_scope.

(** ** Values *)

(** The dynamic type of a pointer held in an [interface{}].  [T_Custom]
    stands for a struct type declared outside the engine that embeds one
    of the engine's structs, such as [DecideAction] (embeds [*Node]) in
    the research-agent example or [startTestNode] (embeds [*BaseNode]) in
    the tests. *)
Inductive GoType : Type :=
| T_BaseNode
| T_Node
| T_BatchNode
| T_Flow
| T_BatchFlow
| T_AsyncNode
| T_AsyncBatchNode
| T_AsyncParallelBatchNode
| T_AsyncFlow
| T_AsyncBatchFlow
| T_AsyncParallelBatchFlow
| T_Custom (name : string).

Definition addr := nat.

(** [VPtr t p]: a pointer of dynamic type [*t]; [p] is the address of the
    [BaseNode] the pointed struct embeds, [None] for a nil pointer.
    [VErr msg] is a non-nil [error] whose [Error()] is [msg]. *)
Inductive value : Type :=
| VNil
| VBool (b : bool)
| VInt (z : Z)
| VStr (s : string)
| VErr (msg : string)
| VList (l : list value)
| VMap (m : gmap string value)
| VPtr (t : GoType) (p : option addr).

(** [errors.New]. *)
Definition errors_New (msg : string) : value := VErr msg.

#[local] Instance GoType_eq_dec : EqDecision GoType.
Proof. solve_decision. Defined.

(** The type assertion [v.( *t )] to a pointer type: it succeeds exactly
    when the dynamic type of [v] is [*t] itself; a struct that embeds
    [t] has another dynamic type.  The result is the pointer, which may
    be nil. *)
Definition assert_ptr (t : GoType) (v : value) : option (option addr) :=
  match v with
  | VPtr t' p => if decide (t' = t) then Some p else None
  | _ => None
  end.

(** The type assertions [v.([]interface{})] and
    [v.(map[string]interface{})]. *)
Definition assert_slice (v : value) : option (list value) :=
  match v with
  | VList l => Some l
  | _ => None
  end.

Definition assert_map (v : value) : option (gmap string value) :=
  match v with
  | VMap m => Some m
  | _ => None
  end.

(** ** Events

    What the engine does besides computing values: which lifecycle
    method body is entered on which node, the sleeps, and the log
    lines. *)
Inductive method : Type :=
| M_Prep | M_Exec | M_Post | M_ExecFallback
| M_PrepAsync | M_ExecAsync | M_PostAsync | M_ExecFallbackAsync.

Inductive logline : Type :=
| LogOverwrite (action : string)
| LogWontRunSuccessors
| LogFlowEnds (action : string) (actions : gset string).

Inductive event : Type :=
| EvCall (m : method) (recv : addr)
| EvSleep (d : Z)
| EvLog (l : logline).

Definition trace := list event.

#[local] Instance method_eq_dec : EqDecision method.
Proof. solve_decision. Defined.

(** How often the body of method [m] was entered, and the sleeps, in a
    trace. *)
Definition calls (m : method) (t : trace) : nat :=
  length (List.filter
            (λ e, match e with
                  | EvCall m1 _ => bool_decide (m1 = m)
                  | _ => false
                  end) t).

Definition sleeps (t : trace) : list Z :=
  omap (λ e, match e with EvSleep d => Some d | _ => None end) t.

(** ** BaseNode and the heap *)

Record BaseNode : Type := mkBaseNode {
  params : gmap string value;
  successors : gmap string value
}.

(** [NewBaseNode]. *)
Definition NewBaseNode : BaseNode :=
  {| params := ∅; successors := ∅ |}.

#[local] Instance BaseNode_inhabited : Inhabited BaseNode := populate NewBaseNode.

(** The rendering of composite values used where a closed instance is
    evaluated; none of the instances prints a composite value. *)
Definition no_composite : value → string := λ _, "".

Section Engine.

(** [fmt.Sprintf("%v", v)] on slices, maps and pointers prints their
    contents and run-time addresses; that rendering is left to the
    run time and taken as given. *)
Variable fmt_composite : value -> string.

Definition Sprintf_v (v : value) : string :=
  match v with
  | VNil => "<nil>"
  | VBool true => "true"
  | VBool false => "false"
  | VInt z => pretty z
  | VStr s => s
  | VErr msg => msg
  | VList _ | VMap _ | VPtr _ _ => fmt_composite v
  end.

(** ** State and computations *)

Record state : Type := mkState {
  st_heap : gmap addr BaseNode;
  st_shared : gmap string value;
  st_trace : trace
}.

(** Computations over the heap, the shared store and the trace. *)
Definition M (A : Type) : Type := state -> A * state.

Definition ret {A} (a : A) : M A := fun s => (a, s).

Definition bind {A B} (m : M A) (k : A -> M B) : M B :=
  fun s => let '(a, s') := m s in k a s'.

Notation "x <- m ;; k" := (bind m (fun x => k))
  (at level 100, m at next level, right associativity).
Notation "m ;;; k" := (bind m (fun _ => k))
  (at level 100, right associativity).

Definition emit (e : event) : M unit :=
  fun s => (tt, {| st_heap := st_heap s; st_shared := st_shared s;
                   st_trace := st_trace s ++ [e] |}).

Definition get_node (a : addr) : M BaseNode :=
  fun s => (st_heap s !!! a, s).

Definition put_node (a : addr) (b : BaseNode) : M unit :=
  fun s => (tt, {| st_heap := <[a := b]> (st_heap s); st_shared := st_shared s;
                   st_trace := st_trace s |}).

(** [func (b *BaseNode) SetParams(params)]. *)
Definition BaseNode_SetParams (b : addr) (ps : gmap string value) : M unit :=
  n <- get_node b ;;
  put_node b {| params := ps; successors := successors n |}.

(** The substitution both [Next] and [GetNextNode] start with:
    [if action == "" { action = "default" }]. *)
Definition normalize_action (action : string) : string :=
  if decide (action = "") then "default" else action.

(** [func (b *BaseNode) Next(node interface{}, action string) interface{}]. *)
Definition BaseNode_Next (b : addr) (node : value) (action : string) : M value :=
  let action := normalize_action action in
  n <- get_node b ;;
  (match successors n !! action with
   | Some _ => emit (EvLog (LogOverwrite action))
   | None => ret tt
   end) ;;;
  put_node b {| params := params n; successors := <[action := node]> (successors n) |} ;;;
  ret node.

(** [BaseNode.Prep], [BaseNode.Exec], [BaseNode.Post]: the no-op
    lifecycle. *)
Definition BaseNode_Prep (b : addr) : M value :=
  emit (EvCall M_Prep b) ;;; ret VNil.

Definition BaseNode_Exec (b : addr) (prepRes : value) : M value :=
  emit (EvCall M_Exec b) ;;; ret VNil.

Definition BaseNode_Post (b : addr) (prepRes execRes : value) : M value :=
  emit (EvCall M_Post b) ;;; ret VNil.

(** [func (b *BaseNode) execInternal(prepRes)]. *)
Definition BaseNode_execInternal (b : addr) (prepRes : value) : M value :=
  BaseNode_Exec b prepRes.

(** [func (b *BaseNode) runInternal(shared)].  The receiver is a
    [*BaseNode], so the three calls are the three methods above. *)
Definition BaseNode_runInternal (b : addr) : M value :=
  prepRes <- BaseNode_Prep b ;;
  execRes <- BaseNode_execInternal b prepRes ;;
  BaseNode_Post b prepRes execRes.

(** [func (b *BaseNode) Run(shared)]. *)
Definition BaseNode_Run (b : addr) : M value :=
  n <- get_node b ;;
  (if decide (0 < size (successors n))%nat
   then emit (EvLog LogWontRunSuccessors) else ret tt) ;;;
  BaseNode_runInternal b.

(** ** Node: the retrying executor *)

(** What a call of [Exec] or [ExecAsync] does: return a value, or panic;
    [r] is the value [recover()] then yields (nil only for [panic(nil)]
    on a run time that hands the nil through). *)
Inductive outcome : Type :=
| Returns (v : value)
| Panics (r : value).

(** [struct Node { *BaseNode; maxRetries int; wait time.Duration;
    curRetry int }]; [node_base] is the address of the embedded
    [BaseNode], [wait] is in nanoseconds. *)
Record Node : Type := mkNode {
  node_base : addr;
  maxRetries : Z;
  wait : Z;
  curRetry : Z
}.

(** [NewNode(maxRetries, wait)], around the [BaseNode] allocated at [b]. *)
Definition NewNode (b : addr) (maxRetries wait : Z) : Node :=
  {| node_base := b; maxRetries := maxRetries; wait := wait; curRetry := 0 |}.

Definition set_curRetry (n : Node) (i : Z) : Node :=
  {| node_base := node_base n; maxRetries := maxRetries n; wait := wait n;
     curRetry := i |}.

(** [func (n *Node) ExecFallback(prepRes, err) interface{} { return err }]. *)
Definition Node_ExecFallback (prepRes : value) (err : value) : value := err.

(** The method [n.Exec] names when [n] is a [*Node]: [Node] declares no
    [Exec], so it is the promoted [BaseNode.Exec], which returns nil. *)
Definition Node_Exec (prepRes : value) : outcome := Returns VNil.

(** The body of the closures that recover a panic, as the value [err]
    has afterwards: [if r := recover(); r != nil { switch v := r.(type)
    { case error: err = v; default: err = fmt.Errorf("%v", v) } }]. *)
Definition recovered_error (r : value) : option value :=
  match r with
  | VNil => None
  | VErr _ => Some r
  | _ => Some (VErr (Sprintf_v r))
  end.

(** How one iteration of a retry loop ends. *)
Inductive attempt_end : Type :=
| Done (res : value)
| Retry.

(** The statements of [Node.execInternal] that follow the call of
    [Exec] in the loop body, as a function of [err]:
    [if err == nil { return result }],
    [if n.curRetry == n.maxRetries-1 { return n.ExecFallback(prepRes, err) }],
    [if n.wait > 0 { time.Sleep(n.wait) }]. *)
Definition Node_after_Exec (fallback : value -> value -> value)
    (n : Node) (prepRes result : value) (err : option value)
  : attempt_end * trace :=
  match err with
  | None => (Done result, [])
  | Some e =>
      if decide (curRetry n = maxRetries n - 1)
      then (Done (fallback prepRes e), [EvCall M_ExecFallback (node_base n)])
      else (Retry, if decide (0 < wait n) then [EvSleep (wait n)] else [])
  end.

(** The loop of [Node.execInternal],
    [for n.curRetry = 0; n.curRetry < n.maxRetries; n.curRetry++],
    by recursion on [remaining = maxRetries - curRetry]: no iteration is
    left exactly when the loop condition is false, and the function then
    returns nil.

    The closure that recovers a panic is registered with [defer] inside
    the loop body, so it runs when [execInternal] returns, not when the
    iteration ends.  Hence
    - when [Exec] returns, [err] is still nil at [if err == nil];
    - when [Exec] panics, the panic leaves the loop and the function; the
      deferred closures run, the latest one recovers the panic and
      assigns its own [err], which nothing reads any more; the function
      has no named result, so its caller receives the zero value nil. *)
Fixpoint Node_execInternal_loop (exec : value -> outcome)
    (fallback : value -> value -> value)
    (remaining : nat) (n : Node) (prepRes : value) : Node * value * trace :=
  match remaining with
  | O => (n, VNil, [])
  | S remaining' =>
      match exec prepRes with
      | Panics r => (n, VNil, [EvCall M_Exec (node_base n)])
      | Returns result =>
          match Node_after_Exec fallback n prepRes result None with
          | (Done res, t) => (n, res, EvCall M_Exec (node_base n) :: t)
          | (Retry, t) =>
              let '(n', res, t') :=
                Node_execInternal_loop exec fallback remaining'
                  (set_curRetry n (curRetry n + 1)) prepRes in
              (n', res, EvCall M_Exec (node_base n) :: t ++ t')
          end
      end
  end.

Definition Node_execInternal_with (exec : value -> outcome)
    (fallback : value -> value -> value) (n : Node) (prepRes : value)
  : Node * value * trace :=
  Node_execInternal_loop exec fallback (Z.to_nat (maxRetries n))
    (set_curRetry n 0) prepRes.

(** [func (n *Node) execInternal(prepRes)]. *)
Definition Node_execInternal (n : Node) (prepRes : value) : Node * value * trace :=
  Node_execInternal_with Node_Exec Node_ExecFallback n prepRes.

(** ** BatchNode *)

(** The loop [for i, item := range itemsSlice { results[i] =
    b.Node.execInternal(item) }] from index [i] on; [results] is the
    slice made with [len(itemsSlice)] slots. *)
Fixpoint BatchNode_range (exec : value -> outcome)
    (fallback : value -> value -> value)
    (n : Node) (i : nat) (items : list value) (results : list value)
  : Node * list value * trace :=
  match items with
  | [] => (n, results, [])
  | item :: rest =>
      let '(n1, r, t1) := Node_execInternal_with exec fallback n item in
      let '(n2, results', t2) :=
        BatchNode_range exec fallback n1 (S i) rest (<[i := r]> results) in
      (n2, results', t1 ++ t2)
  end.

Definition BatchNode_execInternal_with (exec : value -> outcome)
    (fallback : value -> value -> value) (b : Node) (items : value)
  : Node * value * trace :=
  match items with
  | VNil => (b, VList [], [])
  | VList itemsSlice =>
      let '(n, results, t) :=
        BatchNode_range exec fallback b 0 itemsSlice
          (replicate (length itemsSlice) VNil) in
      (n, VList results, t)
  | _ => (b, VList [], [])
  end.

(** [func (b *BatchNode) execInternal(items)]; [b] is the [Node] the
    [BatchNode] embeds. *)
Definition BatchNode_execInternal (b : Node) (items : value) : Node * value * trace :=
  BatchNode_execInternal_with Node_Exec Node_ExecFallback b items.

(** ** Flow *)

(** [struct Flow { *BaseNode; startNode interface{} }]. *)
Record Flow : Type := mkFlow {
  flow_base : addr;
  startNode : value
}.

(** [NewFlow(start)], around the [BaseNode] allocated at [b]. *)
Definition NewFlow (b : addr) (start : value) : Flow :=
  {| flow_base := b; startNode := start |}.

(** [func (f *Flow) GetNextNode(curr *BaseNode, action string)
    interface{}].  [next] is the zero value nil when the key is absent;
    the keys listed by the log line come from a map iteration, whose
    order is unspecified, so the line keeps them as a set. *)
Definition Flow_GetNextNode (curr : addr) (action : string) : M value :=
  let action := normalize_action action in
  c <- get_node curr ;;
  match successors c !! action with
  | Some next => ret next
  | None =>
      (if decide (0 < size (successors c))%nat
       then emit (EvLog (LogFlowEnds action (dom (successors c))))
       else ret tt) ;;;
      ret VNil
  end.

(** The loop [for curr != nil { ... }] of [Flow.orchestrate].  A flow
    graph may have a cycle, so the loop takes [fuel]: [None] means the
    fuel ran out before the loop ended.  [run] is what
    [curr.runInternal(shared)] invokes. *)
Fixpoint Flow_orchestrate_loop (run : addr -> M value) (fuel : nat)
    (curr : option addr) (ps : gmap string value) (lastAction : value)
  : M (option value) :=
  match curr with
  | None => ret (Some lastAction)
  | Some c =>
      match fuel with
      | O => ret None
      | S fuel' =>
          BaseNode_SetParams c ps ;;;
          lastAction <- run c ;;
          nextNode <- Flow_GetNextNode c (Sprintf_v lastAction) ;;
          match nextNode with
          | VNil => ret (Some lastAction)
          | _ =>
              match assert_ptr T_BaseNode nextNode with
              | None => ret (Some lastAction)
              | Some nextBaseNode =>
                  Flow_orchestrate_loop run fuel' nextBaseNode ps lastAction
              end
          end
      end
  end.

(** The parameter set [orchestrate] works with: the argument, or a copy
    of the flow's own [params] when the argument is nil. *)
Definition effective_params (f : Flow) (ps : option (gmap string value))
  : M (gmap string value) :=
  match ps with
  | Some ps => ret ps
  | None => fb <- get_node (flow_base f) ;; ret (params fb)
  end.

Definition Flow_orchestrate_with (run : addr -> M value) (fuel : nat)
    (f : Flow) (ps : option (gmap string value)) : M (option value) :=
  match startNode f with
  | VNil => ret (Some VNil)
  | start =>
      ps <- effective_params f ps ;;
      match assert_ptr T_BaseNode start with
      | None => ret (Some VNil)
      | Some curr => Flow_orchestrate_loop run fuel curr ps VNil
      end
  end.

(** [func (f *Flow) orchestrate(shared, params)]: [curr] is a
    [*BaseNode], so [curr.runInternal] is [BaseNode.runInternal]. *)
Definition Flow_orchestrate (fuel : nat) (f : Flow)
    (ps : option (gmap string value)) : M (option value) :=
  Flow_orchestrate_with BaseNode_runInternal fuel f ps.

(** [func (f *Flow) Post(shared, prepRes, execRes) interface{} { return
    execRes }]. *)
Definition Flow_Post (f : Flow) (prepRes execRes : value) : M value :=
  emit (EvCall M_Post (flow_base f)) ;;; ret execRes.

(** [func (f *Flow) runInternal(shared)]: [f.Prep] is the promoted
    [BaseNode.Prep], [f.Post] is [Flow.Post]. *)
Definition Flow_runInternal (fuel : nat) (f : Flow) : M (option value) :=
  prepRes <- BaseNode_Prep (flow_base f) ;;
  orchRes <- Flow_orchestrate fuel f None ;;
  match orchRes with
  | None => ret None
  | Some orchRes => res <- Flow_Post f prepRes orchRes ;; ret (Some res)
  end.

(** ** BatchFlow *)

(** The loop [for _, bp := range prepSlice] of [BatchFlow.runInternal]:
    an element that is not a map is skipped; otherwise [params] is a
    fresh map filled from [b.params] and then from [bpMap], whose
    entries overwrite ([bpMap ∪ params]), and one [orchestrate] runs
    with it, its result dropped. *)
Fixpoint BatchFlow_range (run : addr -> M value) (fuel : nat) (b : Flow)
    (prepSlice : list value) : M (option unit) :=
  match prepSlice with
  | [] => ret (Some tt)
  | bp :: rest =>
      match assert_map bp with
      | None => BatchFlow_range run fuel b rest
      | Some bpMap =>
          fb <- get_node (flow_base b) ;;
          r <- Flow_orchestrate_with run fuel b (Some (bpMap ∪ params fb)) ;;
          match r with
          | None => ret None
          | Some _ => BatchFlow_range run fuel b rest
          end
      end
  end.

(** [BatchFlow.runInternal] over the methods it calls: [prep] for
    [b.Prep(shared)], [post] for [b.Post(shared, prepRes, nil)], [run]
    for the [runInternal] of the nodes of each run. *)
Definition BatchFlow_runInternal_with (prep : M value)
    (post : value -> value -> M value) (run : addr -> M value)
    (fuel : nat) (b : Flow) : M (option value) :=
  prepRes <- prep ;;
  let prepSlice := default [] (assert_slice prepRes) in
  r <- BatchFlow_range run fuel b prepSlice ;;
  match r with
  | None => ret None
  | Some _ => res <- post prepRes VNil ;; ret (Some res)
  end.

(** [func (b *BatchFlow) runInternal(shared)]; [b] is the [Flow] the
    [BatchFlow] embeds.  [BatchFlow] and [Flow] declare no [Prep], so
    [b.Prep] is the promoted [BaseNode.Prep]; [b.Post] is the promoted
    [Flow.Post]; [b.orchestrate] is [Flow.orchestrate]. *)
Definition BatchFlow_runInternal (fuel : nat) (b : Flow) : M (option value) :=
  BatchFlow_runInternal_with (BaseNode_Prep (flow_base b)) (Flow_Post b)
    BaseNode_runInternal fuel b.

(** ** AsyncNode

    Every function of the asynchronous half returns a channel of
    capacity one that a goroutine of its own feeds at most once and then
    closes, and every caller below receives from that channel at once.
    Such a call is embedded as the computation of the goroutine; what
    was sent is an [option value], and [chan_recv] is the receive: the
    value sent, or the zero value nil when the channel was closed
    empty. *)

Definition chan_recv (sent : option value) : value := default VNil sent.

Definition emit_all (t : trace) : M unit :=
  fun s => (tt, {| st_heap := st_heap s; st_shared := st_shared s;
                   st_trace := st_trace s ++ t |}).

(** [AsyncNode.PrepAsync], [AsyncNode.ExecAsync],
    [AsyncNode.ExecFallbackAsync], [AsyncNode.PostAsync]. *)
Definition AsyncNode_PrepAsync (a : Node) : M value :=
  emit (EvCall M_PrepAsync (node_base a)) ;;; ret VNil.

Definition AsyncNode_ExecAsync (prepRes : value) : outcome := Returns VNil.

Definition AsyncNode_ExecFallbackAsync (prepRes : value) (err : value) : value := err.

Definition AsyncNode_PostAsync (a : Node) (prepRes execRes : value) : M value :=
  emit (EvCall M_PostAsync (node_base a)) ;;; ret VNil.

(** The statements of the loop body of [AsyncNode.execAsyncInternal]
    that follow the inner closure, as a function of [err]:
    [if err == nil { return }],
    [if i == a.maxRetries-1 { result <- a.ExecFallbackAsync(prepRes, err); return }],
    [if a.wait > 0 { time.Sleep(a.wait) }].
    [Done] carries what the iteration sent. *)
Definition AsyncNode_after_closure (fallbackAsync : value -> value -> value)
    (a : Node) (i : Z) (prepRes : value) (err : option value)
  : option (option value) * trace :=
  match err with
  | None => (Some None, [])
  | Some e =>
      if decide (i = maxRetries a - 1)
      then (Some (Some (fallbackAsync prepRes e)),
            [EvCall M_ExecFallbackAsync (node_base a)])
      else (None, if decide (0 < wait a) then [EvSleep (wait a)] else [])
  end.

(** The loop [for i := 0; i < a.maxRetries; i++] of the goroutine of
    [AsyncNode.execAsyncInternal], by recursion on [remaining =
    maxRetries - i].  Here the recovering closure is deferred inside a
    function literal called once per iteration, so it runs at the end of
    each attempt.  The result is what the goroutine sent before its
    deferred [close(result)]. *)
Fixpoint AsyncNode_execAsyncInternal_loop (execAsync : value -> outcome)
    (fallbackAsync : value -> value -> value)
    (remaining : nat) (a : Node) (i : Z) (prepRes : value)
  : option value * trace :=
  match remaining with
  | O => (None, [])
  | S remaining' =>
      match execAsync prepRes with
      | Returns res => (Some res, [EvCall M_ExecAsync (node_base a)])
      | Panics r =>
          match AsyncNode_after_closure fallbackAsync a i prepRes
                  (recovered_error r) with
          | (Some sent, t) => (sent, EvCall M_ExecAsync (node_base a) :: t)
          | (None, t) =>
              let '(sent, t') :=
                AsyncNode_execAsyncInternal_loop execAsync fallbackAsync
                  remaining' a (i + 1) prepRes in
              (sent, EvCall M_ExecAsync (node_base a) :: t ++ t')
          end
      end
  end.

Definition AsyncNode_execAsyncInternal_with (execAsync : value -> outcome)
    (fallbackAsync : value -> value -> value) (a : Node) (prepRes : value)
  : option value * trace :=
  AsyncNode_execAsyncInternal_loop execAsync fallbackAsync
    (Z.to_nat (maxRetries a)) a 0 prepRes.

(** [func (a *AsyncNode) execAsyncInternal(prepRes) chan interface{}]. *)
Definition AsyncNode_execAsyncInternal (a : Node) (prepRes : value)
  : option value * trace :=
  AsyncNode_execAsyncInternal_with AsyncNode_ExecAsync
    AsyncNode_ExecFallbackAsync a prepRes.

(** [AsyncNode.runAsyncInternal] over the methods it calls; the result
    is the value its channel delivers. *)
Definition AsyncNode_runAsyncInternal_with (prepAsync : M value)
    (execAsync : value -> outcome) (fallbackAsync : value -> value -> value)
    (postAsync : value -> value -> M value) (a : Node) : M value :=
  prepRes <- prepAsync ;;
  let '(sent, t) :=
    AsyncNode_execAsyncInternal_with execAsync fallbackAsync a prepRes in
  emit_all t ;;;
  let execRes := chan_recv sent in
  postAsync prepRes execRes.

(** [func (a *AsyncNode) runAsyncInternal(shared) chan interface{}]. *)
Definition AsyncNode_runAsyncInternal (a : Node) : M value :=
  AsyncNode_runAsyncInternal_with (AsyncNode_PrepAsync a) AsyncNode_ExecAsync
    AsyncNode_ExecFallbackAsync (AsyncNode_PostAsync a) a.

(** [func (a *AsyncNode) runInternal(shared) interface{} { return
    errors.New("use RunAsync") }]. *)
Definition AsyncNode_runInternal (a : Node) : M value :=
  ret (errors_New "use RunAsync").

(** ** AsyncFlow *)

(** The loop of the goroutine of [AsyncFlow.orchestrateAsync].  [curr]
    is a variable of type [*BaseNode]; [interface{}(curr)] therefore has
    the dynamic type [*BaseNode], and the loop asserts it to
    [*AsyncNode].  [runAsync] is what receiving from
    [asyncNode.runAsyncInternal(shared)] delivers, [run] is what
    [curr.runInternal(shared)] invokes. *)
Fixpoint AsyncFlow_orchestrateAsync_loop (run runAsync : addr -> M value)
    (fuel : nat) (curr : option addr) (ps : gmap string value)
    (lastAction : value) : M (option value) :=
  match curr with
  | None => ret (Some lastAction)
  | Some c =>
      match fuel with
      | O => ret None
      | S fuel' =>
          BaseNode_SetParams c ps ;;;
          lastAction <-
            match assert_ptr T_AsyncNode (VPtr T_BaseNode (Some c)) with
            | Some _ => runAsync c
            | None => run c
            end ;;
          nextNode <- Flow_GetNextNode c (Sprintf_v lastAction) ;;
          match nextNode with
          | VNil => ret (Some lastAction)
          | _ =>
              match assert_ptr T_BaseNode nextNode with
              | None => ret (Some lastAction)
              | Some nextBaseNode =>
                  AsyncFlow_orchestrateAsync_loop run runAsync fuel'
                    nextBaseNode ps lastAction
              end
          end
      end
  end.

(** [AsyncFlow.orchestrateAsync]; [a] is the [Flow] the [AsyncFlow]
    embeds, whose [params], [startNode] and [GetNextNode] the selectors
    reach.  The result is the value the channel delivers. *)
Definition AsyncFlow_orchestrateAsync_with (run runAsync : addr -> M value)
    (fuel : nat) (a : Flow) (ps : option (gmap string value))
  : M (option value) :=
  match startNode a with
  | VNil => ret (Some VNil)
  | start =>
      ps <- effective_params a ps ;;
      match assert_ptr T_BaseNode start with
      | None => ret (Some VNil)
      | Some curr =>
          AsyncFlow_orchestrateAsync_loop run runAsync fuel curr ps VNil
      end
  end.

(** [func (a *AsyncFlow) orchestrateAsync(shared, params)].
    [async_node_at] reads the [AsyncNode] struct behind a pointer the
    assertion to [*AsyncNode] produced. *)
Definition AsyncFlow_orchestrateAsync (async_node_at : addr -> Node)
    (fuel : nat) (a : Flow) (ps : option (gmap string value))
  : M (option value) :=
  AsyncFlow_orchestrateAsync_with BaseNode_runInternal
    (fun p => AsyncNode_runAsyncInternal (async_node_at p)) fuel a ps.

(** ** AsyncParallelBatchNode

    [AsyncParallelBatchNode.execAsyncInternal] starts several goroutines
    that run concurrently, so it is embedded as a transition system: a
    state of the channels and goroutines, and one step per goroutine
    action, the scheduler choosing which goroutine moves. *)

(** A channel of capacity one. *)
Record chan : Type := mkChan {
  ch_buf : option value;
  ch_closed : bool
}.

Definition make_chan : chan := {| ch_buf := None; ch_closed := false |}.

(** The goroutine started last, [go func() { wg.Wait(); for i, ch :=
    range resultChans { results[i] = <-ch; close(ch) }; result <-
    results }()]. *)
Inductive collector : Type :=
| CollNotStarted
| CollWaiting
| CollSent
| CollPanicked.

Record pstate : Type := mkPState {
  ps_result : chan;                  (* [result] *)
  ps_outer_returned : bool;          (* the outer goroutine is over *)
  ps_tasks : list (option value);    (* per index: the item of a task still running *)
  ps_chans : list chan;              (* [resultChans] *)
  ps_wg : nat;                       (* the [WaitGroup] counter *)
  ps_collector : collector;
  ps_received : option value;        (* what the caller's [<-result] got *)
  ps_trace : trace
}.

(** The outer goroutine up to its last statement: the two early exits
    send an empty slice; otherwise every item gets its channel and its
    task ([wg.Add(1)] each) and the collecting goroutine is started.
    What is left of the outer goroutine is its return, which runs the
    deferred [close(result)]. *)
Definition par_start (items : value) : pstate :=
  match assert_slice items with
  | None =>
      {| ps_result := {| ch_buf := Some (VList []); ch_closed := false |};
         ps_outer_returned := false; ps_tasks := []; ps_chans := [];
         ps_wg := 0; ps_collector := CollNotStarted;
         ps_received := None; ps_trace := [] |}
  | Some itemsSlice =>
      {| ps_result := make_chan;
         ps_outer_returned := false;
         ps_tasks := Some <$> itemsSlice;
         ps_chans := replicate (length itemsSlice) make_chan;
         ps_wg := length itemsSlice;
         ps_collector := CollWaiting;
         ps_received := None; ps_trace := [] |}
  end.

(** The scheduler's choices. *)
Inductive pstep : Type :=
| StepOuterReturn        (* the outer goroutine returns: [close(result)] *)
| StepTask (idx : nat)   (* task [idx] runs to its end *)
| StepCollect            (* [wg.Wait()] returns; the collector runs to its end *)
| StepReceive.           (* the caller's [<-result] completes *)

(** [results[i] = <-ch] for every channel, in index order; [None] when
    some channel is still empty, on which the receive would block. *)
Definition collect_results (chans : list chan) : option (list value) :=
  mapM ch_buf chans.

(** One step; [None] when the chosen goroutine cannot move (it is over,
    or blocked).

    - A task: [resChan := a.AsyncNode.execAsyncInternal(itm);
      resultChans[idx] <- <-resChan], then the deferred [wg.Done()].
    - The collector moves once the counter is zero.  Its last statement
      sends on [result]; a send on a closed channel panics, and no
      [recover] is deferred in that goroutine.
    - A receive completes on a buffered value, or on a closed empty
      channel with the zero value nil. *)
Definition par_step (execAsync : value -> outcome)
    (fallbackAsync : value -> value -> value) (a : Node)
    (st : pstep) (s : pstate) : option pstate :=
  match st with
  | StepOuterReturn =>
      if ps_outer_returned s then None
      else Some {| ps_result := {| ch_buf := ch_buf (ps_result s); ch_closed := true |};
                   ps_outer_returned := true;
                   ps_tasks := ps_tasks s; ps_chans := ps_chans s;
                   ps_wg := ps_wg s; ps_collector := ps_collector s;
                   ps_received := ps_received s; ps_trace := ps_trace s |}
  | StepTask idx =>
      match ps_tasks s !! idx with
      | Some (Some itm) =>
          let '(sent, t) :=
            AsyncNode_execAsyncInternal_with execAsync fallbackAsync a itm in
          Some {| ps_result := ps_result s;
                  ps_outer_returned := ps_outer_returned s;
                  ps_tasks := <[idx := None]> (ps_tasks s);
                  ps_chans := <[idx := {| ch_buf := Some (chan_recv sent);
                                          ch_closed := false |}]> (ps_chans s);
                  ps_wg := pred (ps_wg s);
                  ps_collector := ps_collector s;
                  ps_received := ps_received s;
                  ps_trace := ps_trace s ++ t |}
      | _ => None
      end
  | StepCollect =>
      match ps_collector s, ps_wg s with
      | CollWaiting, O =>
          match collect_results (ps_chans s) with
          | None => None
          | Some results =>
              let drained :=
                (fun _ => {| ch_buf := None; ch_closed := true |}) <$> ps_chans s in
              if ch_closed (ps_result s)
              then Some {| ps_result := ps_result s;
                           ps_outer_returned := ps_outer_returned s;
                           ps_tasks := ps_tasks s; ps_chans := drained;
                           ps_wg := ps_wg s; ps_collector := CollPanicked;
                           ps_received := ps_received s; ps_trace := ps_trace s |}
              else
                match ch_buf (ps_result s) with
                | Some _ => None
                | None =>
                    Some {| ps_result := {| ch_buf := Some (VList results);
                                            ch_closed := false |};
                            ps_outer_returned := ps_outer_returned s;
                            ps_tasks := ps_tasks s; ps_chans := drained;
                            ps_wg := ps_wg s; ps_collector := CollSent;
                            ps_received := ps_received s; ps_trace := ps_trace s |}
                end
          end
      | _, _ => None
      end
  | StepReceive =>
      match ps_received s with
      | Some _ => None
      | None =>
          match ch_buf (ps_result s) with
          | Some v =>
              Some {| ps_result := {| ch_buf := None;
                                      ch_closed := ch_closed (ps_result s) |};
                      ps_outer_returned := ps_outer_returned s;
                      ps_tasks := ps_tasks s; ps_chans := ps_chans s;
                      ps_wg := ps_wg s; ps_collector := ps_collector s;
                      ps_received := Some v; ps_trace := ps_trace s |}
          | None =>
              if ch_closed (ps_result s)
              then Some {| ps_result := ps_result s;
                           ps_outer_returned := ps_outer_returned s;
                           ps_tasks := ps_tasks s; ps_chans := ps_chans s;
                           ps_wg := ps_wg s; ps_collector := ps_collector s;
                           ps_received := Some VNil; ps_trace := ps_trace s |}
              else None
          end
      end
  end.

(** A schedule, step after step; [None] when it asks a goroutine that
    cannot move to move. *)
Fixpoint par_run (execAsync : value -> outcome)
    (fallbackAsync : value -> value -> value) (a : Node)
    (sched : list pstep) (s : pstate) : option pstate :=
  match sched with
  | [] => Some s
  | st :: sched' =>
      match par_step execAsync fallbackAsync a st s with
      | None => None
      | Some s' => par_run execAsync fallbackAsync a sched' s'
      end
  end.

(** [func (a *AsyncParallelBatchNode) execAsyncInternal(items)] under
    the schedule [sched]; the tasks call [a.AsyncNode.execAsyncInternal],
    whose [ExecAsync] and [ExecFallbackAsync] are those of
    [AsyncNode]. *)
Definition AsyncParallelBatchNode_execAsyncInternal (a : Node)
    (items : value) (sched : list pstep) : option pstate :=
  par_run AsyncNode_ExecAsync AsyncNode_ExecFallbackAsync a sched
    (par_start items).

(** ** Wiring helpers *)

(** [struct conditionalTransition { src *BaseNode; action string }]. *)
Record conditionalTransition : Type := mkConditionalTransition {
  ct_src : addr;
  ct_action : string
}.

(** [newConditionalTransition(src, action)]. *)
Definition newConditionalTransition (src : addr) (action : string)
  : conditionalTransition :=
  {| ct_src := src; ct_action := action |}.

(** [func (c *conditionalTransition) Next(target) interface{} { return
    c.src.Next(target, c.action) }]. *)
Definition conditionalTransition_Next (c : conditionalTransition)
    (target : value) : M value :=
  BaseNode_Next (ct_src c) target (ct_action c).

(** [func (f *Flow) Start(start) interface{}]: the flow with its start
    node replaced, and the value returned. *)
Definition Flow_Start (f : Flow) (start : value) : Flow * value :=
  ({| flow_base := flow_base f; startNode := start |}, start).

(** ** AsyncBatchNode *)

(** The loop [for i, item := range itemsSlice { resChan :=
    a.AsyncNode.execAsyncInternal(item); results[i] = <-resChan }] from
    index [i] on. *)
Fixpoint AsyncBatchNode_range (execAsync : value -> outcome)
    (fallbackAsync : value -> value -> value)
    (a : Node) (i : nat) (items : list value) (results : list value)
  : list value * trace :=
  match items with
  | [] => (results, [])
  | item :: rest =>
      let '(sent, t1) :=
        AsyncNode_execAsyncInternal_with execAsync fallbackAsync a item in
      let '(results', t2) :=
        AsyncBatchNode_range execAsync fallbackAsync a (S i) rest
          (<[i := chan_recv sent]> results) in
      (results', t1 ++ t2)
  end.

(** [AsyncBatchNode.execAsyncInternal] over the [ExecAsync] and fallback
    its attempts call; the result is what its goroutine sends. *)
Definition AsyncBatchNode_execAsyncInternal_with (execAsync : value -> outcome)
    (fallbackAsync : value -> value -> value) (a : Node) (items : value)
  : option value * trace :=
  match items with
  | VNil => (Some (VList []), [])
  | VList itemsSlice =>
      let '(results, t) :=
        AsyncBatchNode_range execAsync fallbackAsync a 0 itemsSlice
          (replicate (length itemsSlice) VNil) in
      (Some (VList results), t)
  | _ => (Some (VList []), [])
  end.

(** [func (a *AsyncBatchNode) execAsyncInternal(items) chan
    interface{}]. *)
Definition AsyncBatchNode_execAsyncInternal (a : Node) (items : value)
  : option value * trace :=
  AsyncBatchNode_execAsyncInternal_with AsyncNode_ExecAsync
    AsyncNode_ExecFallbackAsync a items.

(** ** AsyncFlow as a node, AsyncBatchFlow *)

(** [struct AsyncFlow { *Flow; *AsyncNode }]: the selectors [params],
    [startNode], [GetNextNode] reach the [Flow], [PrepAsync] reaches the
    [AsyncNode]. *)
Record AsyncFlow : Type := mkAsyncFlow {
  af_flow : Flow;
  af_async : Node
}.

(** [NewAsyncFlow(start)], around the [BaseNode]s allocated at [b] (of
    the [Flow]) and [b'] (of the [AsyncNode]): [NewFlow(start)] and
    [NewAsyncNode(1, 0)]. *)
Definition NewAsyncFlow (b b' : addr) (start : value) : AsyncFlow :=
  {| af_flow := NewFlow b start; af_async := NewNode b' 1 0 |}.

(** [func (a *AsyncFlow) PostAsync(shared, prepRes, execRes)
    interface{} { return execRes }]. *)
Definition AsyncFlow_PostAsync (a : AsyncFlow) (prepRes execRes : value)
  : M value :=
  emit (EvCall M_PostAsync (flow_base (af_flow a))) ;;; ret execRes.

(** [func (a *AsyncFlow) runAsyncInternal(shared) chan interface{}];
    [a.PrepAsync] is [AsyncNode.PrepAsync], [a.PostAsync] is
    [AsyncFlow.PostAsync]. *)
Definition AsyncFlow_runAsyncInternal (async_node_at : addr -> Node)
    (fuel : nat) (a : AsyncFlow) : M (option value) :=
  prepRes <- AsyncNode_PrepAsync (af_async a) ;;
  orchRes <- AsyncFlow_orchestrateAsync async_node_at fuel (af_flow a) None ;;
  match orchRes with
  | None => ret None
  | Some orchRes =>
      res <- AsyncFlow_PostAsync a prepRes orchRes ;; ret (Some res)
  end.

(** The loop [for _, bp := range prepSlice] of
    [AsyncBatchFlow.runAsyncInternal]: as in [BatchFlow.runInternal],
    with [orchestrateAsync] awaited for each map. *)
Fixpoint AsyncBatchFlow_range (run runAsync : addr -> M value) (fuel : nat)
    (a : Flow) (prepSlice : list value) : M (option unit) :=
  match prepSlice with
  | [] => ret (Some tt)
  | bp :: rest =>
      match assert_map bp with
      | None => AsyncBatchFlow_range run runAsync fuel a rest
      | Some bpMap =>
          fb <- get_node (flow_base a) ;;
          r <- AsyncFlow_orchestrateAsync_with run runAsync fuel a
                 (Some (bpMap ∪ params fb)) ;;
          match r with
          | None => ret None
          | Some _ => AsyncBatchFlow_range run runAsync fuel a rest
          end
      end
  end.

(** [AsyncBatchFlow.runAsyncInternal] over the methods it calls. *)
Definition AsyncBatchFlow_runAsyncInternal_with (prepAsync : M value)
    (postAsync : value -> value -> M value) (run runAsync : addr -> M value)
    (fuel : nat) (a : Flow) : M (option value) :=
  prepRes <- prepAsync ;;
  let prepSlice := default [] (assert_slice prepRes) in
  r <- AsyncBatchFlow_range run runAsync fuel a prepSlice ;;
  match r with
  | None => ret None
  | Some _ => res <- postAsync prepRes VNil ;; ret (Some res)
  end.

(** [func (a *AsyncBatchFlow) runAsyncInternal(shared) chan
    interface{}]; [a] is the [AsyncFlow] the [AsyncBatchFlow] embeds. *)
Definition AsyncBatchFlow_runAsyncInternal (async_node_at : addr -> Node)
    (fuel : nat) (a : AsyncFlow) : M (option value) :=
  AsyncBatchFlow_runAsyncInternal_with (AsyncNode_PrepAsync (af_async a))
    (AsyncFlow_PostAsync a) BaseNode_runInternal
    (fun p => AsyncNode_runAsyncInternal (async_node_at p)) fuel (af_flow a).

(** ** The package's tests: the router and the retry loop they use *)

(** [func (f *transitionTestFlow) GetNextNode(curr *BaseNode, action
    string) interface{}], the lookup the transition test runs instead of
    [Flow.GetNextNode]: an absent key falls back to the entry
    "default". *)
Definition transitionTestFlow_GetNextNode (curr : addr) (action : string)
  : M value :=
  let action := normalize_action action in
  c <- get_node curr ;;
  match successors c !! action with
  | Some next => ret next
  | None =>
      match successors c !! "default" with
      | Some defaultNext => ret defaultNext
      | None => ret VNil
      end
  end.

(** [struct retryTestNode { *Node; retryCount *int; mockErr error }];
    [rt_retryCount] is the integer behind the pointer, [rt_mockErr] is
    nil or an error. *)
Record retryTestNode : Type := mkRetryTestNode {
  rt_node : Node;
  rt_retryCount : Z;
  rt_mockErr : value
}.

(** Go's [int] on a 64-bit platform: the result of an addition wraps
    around. *)
Definition wrap_int (z : Z) : Z :=
  (z + 2 ^ 63) mod 2 ^ 64 - 2 ^ 63.

(** [func (n *retryTestNode) Exec(prepRes) interface{}]: it increments
    the integer behind [n.retryCount] and then calls
    [panic(n.mockErr)]. *)
Definition retryTestNode_Exec (n : retryTestNode) (prepRes : value)
  : retryTestNode * outcome :=
  ({| rt_node := rt_node n; rt_retryCount := wrap_int (rt_retryCount n + 1);
      rt_mockErr := rt_mockErr n |},
   Panics (rt_mockErr n)).

Definition rt_set_curRetry (n : retryTestNode) (i : Z) : retryTestNode :=
  {| rt_node := set_curRetry (rt_node n) i; rt_retryCount := rt_retryCount n;
     rt_mockErr := rt_mockErr n |}.

(** The loop of [retryTestNode.execInternal], by recursion on
    [remaining = maxRetries - curRetry].  Each attempt runs in a
    function literal whose deferred closure recovers the panic into
    [err]; the statements after it are
    [if n.curRetry == n.maxRetries-1 { return n.ExecFallback(prepRes,
    err) }] and [if n.wait > 0 { time.Sleep(n.wait) }].  After the loop
    the function returns [n.mockErr]. *)
Fixpoint retryTestNode_execInternal_loop (remaining : nat)
    (n : retryTestNode) (prepRes : value) : retryTestNode * value * trace :=
  match remaining with
  | O => (n, rt_mockErr n, [])
  | S remaining' =>
      let '(n1, o) := retryTestNode_Exec n prepRes in
      let err :=
        match o with
        | Returns _ => None
        | Panics r => recovered_error r
        end in
      let b := node_base (rt_node n1) in
      if decide (curRetry (rt_node n1) = maxRetries (rt_node n1) - 1)
      then (n1, Node_ExecFallback prepRes (default VNil err),
            [EvCall M_Exec b; EvCall M_ExecFallback b])
      else
        let t := if decide (0 < wait (rt_node n1))
                 then [EvSleep (wait (rt_node n1))] else [] in
        let '(n2, res, t') :=
          retryTestNode_execInternal_loop remaining'
            (rt_set_curRetry n1 (curRetry (rt_node n1) + 1)) prepRes in
        (n2, res, EvCall M_Exec b :: t ++ t')
  end.

(** [func (n *retryTestNode) execInternal(prepRes) interface{}]. *)
Definition retryTestNode_execInternal (n : retryTestNode) (prepRes : value)
  : retryTestNode * value * trace :=
  retryTestNode_execInternal_loop (Z.to_nat (maxRetries (rt_node n)))
    (rt_set_curRetry n 0) prepRes.

(** ** The research-agent example: the phases of its nodes

    The three node types of the example embed [*agent.Node] and declare
    their own [Prep], [Exec] and [Post].  Their [Prep] and [Post] only
    read and write the shared store, log and print; they are functions
    of the store here, with the lines they log or print listed.  The
    [Exec] of the search node calls the web search, taken as given; the
    [Exec] of the other two call the language model and are left out.

    The example comes in two versions; the one embedded here is the
    version whose [DecideAction.Prep] goes on with an empty question
    when the store has none, and whose nodes are made with
    [NewNode(1, 0)]. *)

(** The [%s] rendering of a value that is neither nil, a string nor an
    error, and the web search [SearchWeb]. *)
Variable fmt_s_other : value -> string.
Variable SearchWeb : string -> string.

(** [fmt.Sprintf("%s", v)]. *)
Definition Sprintf_s (v : value) : string :=
  match v with
  | VNil => "%!s(<nil>)"
  | VStr s => s
  | VErr msg => msg
  | _ => fmt_s_other v
  end.

(** The line feed of Go's ["\n"]. *)
Definition nl : string := String (Ascii.ascii_of_nat 10) "".

(** [s, ok := m[k].(string)]: an absent key reads as nil, on which the
    assertion fails. *)
Definition lookup_string (m : gmap string value) (k : string) : option string :=
  match m !! k with
  | Some (VStr s) => Some s
  | _ => None
  end.

(** The lines the example's [Prep] and [Post] log ([log.Println],
    [log.Printf]) or print ([fmt.Println], [fmt.Printf]), with the
    values they format. *)
Inductive example_line : Type :=
| Log_DecideAction_Prep_no_question
| Log_DecideAction_Post_not_a_map
| Log_DecideAction_Post_exec_error (reason : string)
| Print_decided_to_search (searchQuery : string)
| Print_decided_to_answer
| Log_SearchWebNode_Prep_no_query
| Log_SearchWebNode_Exec_no_query
| Print_searching (searchQuery : string)
| Log_SearchWebNode_Exec_empty_results
| Log_SearchWebNode_Post_not_a_string
| Print_found_information
| Log_AnswerQuestion_Prep_no_question
| Log_AnswerQuestion_Prep_no_context
| Log_AnswerQuestion_Post_invalid (execRes : string)
| Print_answer_generated
| Log_RunResearchAgent_error (errVal : string)
| Log_RunResearchAgent_no_answer.

(** [func (d *DecideAction) Prep(shared) interface{}]. *)
Definition DecideAction_Prep (shared : gmap string value)
  : value * list example_line :=
  let contextStr := default "No previous search" (lookup_string shared "context") in
  match lookup_string shared "question" with
  | Some question => (VList [VStr question; VStr contextStr], [])
  | None =>
      (VList [VStr ""; VStr contextStr], [Log_DecideAction_Prep_no_question])
  end.

(** [func (d *DecideAction) Post(shared, prepRes, execRes)
    interface{}]: the store afterwards, the action and the lines. *)
Definition DecideAction_Post (shared : gmap string value)
    (prepRes execRes : value)
  : gmap string value * value * list example_line :=
  match assert_map execRes with
  | None => (shared, VStr "error", [Log_DecideAction_Post_not_a_map])
  | Some decision =>
      let action := default "" (lookup_string decision "action") in
      if decide (action = "error") then
        let reason := default "" (lookup_string decision "reason") in
        (<["error" := VStr reason]> shared, VStr "error",
         [Log_DecideAction_Post_exec_error reason])
      else if decide (action = "search") then
        let searchQuery := default "" (lookup_string decision "search_query") in
        (<["search_query" := VStr searchQuery]> shared, VStr action,
         [Print_decided_to_search searchQuery])
      else
        let answer := default "" (lookup_string decision "answer") in
        (<["context" := VStr answer]> shared, VStr action,
         [Print_decided_to_answer])
  end.

(** [func (s *SearchWebNode) Prep(shared) interface{}]. *)
Definition SearchWebNode_Prep (shared : gmap string value)
  : value * list example_line :=
  match lookup_string shared "search_query" with
  | Some searchQuery =>
      if decide (searchQuery = "")
      then (VStr "", [Log_SearchWebNode_Prep_no_query])
      else (VStr searchQuery, [])
  | None => (VStr "", [Log_SearchWebNode_Prep_no_query])
  end.

(** [func (s *SearchWebNode) Exec(prepRes) interface{}]. *)
Definition SearchWebNode_Exec (prepRes : value) : value * list example_line :=
  match prepRes with
  | VStr searchQuery =>
      if decide (searchQuery = "")
      then (VStr "Error: Invalid or empty search query provided.",
            [Log_SearchWebNode_Exec_no_query])
      else
        let results := SearchWeb searchQuery in
        if decide (results = "")
        then (VStr "Search completed, but no results were found or retrieved.",
              [Print_searching searchQuery;
               Log_SearchWebNode_Exec_empty_results])
        else (VStr results, [Print_searching searchQuery])
  | _ => (VStr "Error: Invalid or empty search query provided.",
          [Log_SearchWebNode_Exec_no_query])
  end.

(** [func (s *SearchWebNode) Post(shared, prepRes, execRes)
    interface{}]. *)
Definition SearchWebNode_Post (shared : gmap string value)
    (prepRes execRes : value)
  : gmap string value * value * list example_line :=
  match execRes with
  | VStr results =>
      let searchQuery := default "" (lookup_string shared "search_query") in
      let previousContext := default "" (lookup_string shared "context") in
      let newContext :=
        (previousContext ++ nl ++ nl ++ "SEARCH: " ++ searchQuery ++ nl
         ++ "RESULTS:" ++ nl ++ results)%string in
      (<["context" := VStr newContext]> shared, VStr "decide",
       [Print_found_information])
  | _ =>
      let shared1 :=
        <["error" := VStr "Internal error: Search execution failed or returned unexpected result."]>
          shared in
      let rendered :=
        (Sprintf_s (default VNil (shared1 !! "context")) ++ nl ++ nl
         ++ "Search Error: " ++ Sprintf_v execRes)%string in
      (<["context" := VStr rendered]> shared1, VStr "error",
       [Log_SearchWebNode_Post_not_a_string])
  end.

(** The lifecycle of the search node, [Prep], then [Exec], then
    [Post], as a flow that dispatched to the node's own methods would
    run it. *)
Definition SearchWebNode_lifecycle (shared : gmap string value)
  : gmap string value * value * list example_line :=
  let '(prepRes, l1) := SearchWebNode_Prep shared in
  let '(execRes, l2) := SearchWebNode_Exec prepRes in
  let '(shared', action, l3) := SearchWebNode_Post shared prepRes execRes in
  (shared', action, l1 ++ l2 ++ l3).

(** [func (a *AnswerQuestion) Prep(shared) interface{}]. *)
Definition AnswerQuestion_Prep (shared : gmap string value)
  : value * list example_line :=
  let '(question, l1) :=
    match lookup_string shared "question" with
    | Some question =>
        if decide (question = "")
        then ("", [Log_AnswerQuestion_Prep_no_question])
        else (question, [])
    | None => ("", [Log_AnswerQuestion_Prep_no_question])
    end in
  let '(contextStr, l2) :=
    match lookup_string shared "context" with
    | Some contextStr => (contextStr, [])
    | None => ("", [Log_AnswerQuestion_Prep_no_context])
    end in
  (VList [VStr question; VStr contextStr], l1 ++ l2).

(** [func (a *AnswerQuestion) Post(shared, prepRes, execRes)
    interface{}]. *)
Definition AnswerQuestion_Post (shared : gmap string value)
    (prepRes execRes : value)
  : gmap string value * value * list example_line :=
  let failed :=
    (<["error" := VStr "Answer generation failed or produced empty result."]>
       (<["answer" := VStr ("Failed to generate final answer. Error: "
                            ++ Sprintf_v execRes)%string]> shared),
     VStr "error",
     [Log_AnswerQuestion_Post_invalid (Sprintf_v execRes)]) in
  match execRes with
  | VStr answer =>
      if decide (answer = "") then failed
      else (<["answer" := VStr answer]> shared, VStr "done",
            [Print_answer_generated])
  | _ => failed
  end.

(** [func CreateResearchAgent() *agent.Flow]: the three nodes and the
    flow are allocated at [d], [w], [q] and [f] (each constructor ends
    in [NewBaseNode]), then wired with [Next], which the node types
    inherit from their embedded [BaseNode]. *)
Definition CreateResearchAgent (f d w q : addr) : M Flow :=
  let decideAction := VPtr (T_Custom "DecideAction") (Some d) in
  let searchWeb := VPtr (T_Custom "SearchWebNode") (Some w) in
  let answerQuestion := VPtr (T_Custom "AnswerQuestion") (Some q) in
  put_node d NewBaseNode ;;;
  put_node w NewBaseNode ;;;
  put_node q NewBaseNode ;;;
  put_node f NewBaseNode ;;;
  let flow := NewFlow f decideAction in
  BaseNode_Next d searchWeb "search" ;;;
  BaseNode_Next d answerQuestion "answer" ;;;
  BaseNode_Next w decideAction "decide" ;;;
  ret flow.

(** The end of [RunResearchAgent], from the comment "Result Handling"
    on: what it returns for the store the run left. *)
Definition RunResearchAgent_result (shared : gmap string value)
  : string * list example_line :=
  match shared !! "error" with
  | Some errVal =>
      (("Agent encountered an error: " ++ Sprintf_v errVal)%string,
       [Log_RunResearchAgent_error (Sprintf_v errVal)])
  | None =>
      match lookup_string shared "answer" with
      | Some answer =>
          if decide (answer = "")
          then ("Agent finished, but no answer was generated.",
                [Log_RunResearchAgent_no_answer])
          else (answer, [])
      | None =>
          ("Agent finished, but no answer was generated.",
           [Log_RunResearchAgent_no_answer])
      end
  end.

(** [RunResearchAgent(question)] from the comment "Agent Execution" on,
    that is once [SetLlmApi] has returned [model] and [ctx] without
    error: the agent is created, the store is made with the three keys,
    the flow is run with the exported [Run], which a [*agent.Flow]
    inherits from its embedded [BaseNode], and the result is read off
    the store. *)
Definition RunResearchAgent_after_init (question : string) (model ctx : value)
    (f d w q : addr) : M (string * list example_line) :=
  researchAgent <- CreateResearchAgent f d w q ;;
  (fun s => (tt, {| st_heap := st_heap s;
                    st_shared := <["question" := VStr question]>
                                   (<["llmModel" := model]>
                                      (<["llmCtx" := ctx]> ∅));
                    st_trace := st_trace s |})) ;;;
  BaseNode_Run (flow_base researchAgent) ;;;
  (fun s => (RunResearchAgent_result (st_shared s), s)).

(** ** Auxiliary definitions for the statements *)

(** The events of one failed attempt that is not the last. *)
Definition failed_attempt (a : Node) : trace :=
  EvCall M_ExecAsync (node_base a)
  :: (if decide (0 < wait a) then [EvSleep (wait a)] else []).

(** A heap with a flow at 0 and two nodes: the node at 1 has the node
    [target] registered under action [x], the node at 2 has no
    successor. *)
Definition two_node_heap (x : string) (target : value) : gmap addr BaseNode :=
  <[0%nat := NewBaseNode]>
    (<[1%nat := {| params := ∅; successors := {[ x := target ]} |}]>
       (<[2%nat := NewBaseNode]> ∅)).

Definition initial_state (h : gmap addr BaseNode) : state :=
  {| st_heap := h; st_shared := ∅; st_trace := [] |}.

(** What task [idx] puts into its channel. *)
Definition task_result (execAsync : value → outcome)
    (fallbackAsync : value → value → value) (a : Node) (item : value) : value :=
  chan_recv (AsyncNode_execAsyncInternal_with execAsync fallbackAsync a item).1.

(** The state after the tasks with indices in [finished] are over and
    nothing else has moved. *)
Definition tasks_finished (execAsync : value → outcome)
    (fallbackAsync : value → value → value) (a : Node)
    (items : list value) (finished : list nat) (s : pstate) : Prop :=
  NoDup finished
  ∧ (∀ i, i ∈ finished → (i < length items)%nat)
  ∧ ps_result s = make_chan
  ∧ ps_outer_returned s = false
  ∧ ps_collector s = CollWaiting
  ∧ ps_received s = None
  ∧ (ps_wg s + length finished = length items)%nat
  ∧ ps_tasks s
    = imap (λ i item, if decide (i ∈ finished) then None else Some item) items
  ∧ ps_chans s
    = imap (λ i item,
              if decide (i ∈ finished)
              then {| ch_buf := Some (task_result execAsync fallbackAsync a item);
                      ch_closed := false |}
              else make_chan) items.

(** ** Invariants of the parallel batch executor *)

(** What holds in every state the goroutines of
    [AsyncParallelBatchNode.execAsyncInternal] can reach on a slice
    [items]: some set [finished] of tasks is over, each with its result
    in its own channel; [result] is closed exactly when the outer
    goroutine has returned; and the caller has received nothing, or nil
    from the closed channel, or the complete list. *)
Definition par_inv (execAsync : value → outcome)
    (fallbackAsync : value → value → value) (a : Node)
    (items : list value) (s : pstate) : Prop :=
  let published := VList (task_result execAsync fallbackAsync a <$> items) in
  ∃ finished : list nat,
    NoDup finished
    ∧ (∀ i, i ∈ finished → (i < length items)%nat)
    ∧ (ps_wg s + length finished = length items)%nat
    ∧ ps_tasks s
      = imap (λ i item, if decide (i ∈ finished) then None else Some item) items
    ∧ ch_closed (ps_result s) = ps_outer_returned s
    ∧ match ps_collector s with
      | CollNotStarted => False
      | CollWaiting =>
          ps_chans s
          = imap (λ i item,
                    if decide (i ∈ finished)
                    then {| ch_buf := Some (task_result execAsync fallbackAsync
                                              a item);
                            ch_closed := false |}
                    else make_chan) items
          ∧ ch_buf (ps_result s) = None
          ∧ (ps_received s = None
             ∨ (ps_received s = Some VNil ∧ ch_closed (ps_result s) = true))
      | CollSent =>
          ps_wg s = 0%nat
          ∧ ch_closed (ps_result s) = ps_outer_returned s
          ∧ ((ch_buf (ps_result s) = Some published ∧ ps_received s = None)
             ∨ (ch_buf (ps_result s) = None
                ∧ ps_received s = Some published))
      | CollPanicked =>
          ps_wg s = 0%nat
          ∧ ch_closed (ps_result s) = true
          ∧ ch_buf (ps_result s) = None
          ∧ (ps_received s = None ∨ ps_received s = Some VNil)
      end.

(** The same for an input that is nil or not a slice: the empty list is
    in [result] or with the caller, and no goroutine but the outer one
    exists. *)
Definition par_inv_no_slice (s : pstate) : Prop :=
  ps_collector s = CollNotStarted
  ∧ ps_tasks s = []
  ∧ ((ch_buf (ps_result s) = Some (VList []) ∧ ps_received s = None)
     ∨ (ch_buf (ps_result s) = None ∧ ps_received s = Some (VList []))).

(** * Properties *)

#[local] Ltac unfold_M :=
  unfold bind, ret, emit, emit_all, get_node, put_node in *.

(** ** The router: registration and lookup *)

Lemma normalize_action_empty : normalize_action "" = "default".
Proof. reflexivity. Qed.

Lemma normalize_action_default : normalize_action "default" = "default".
Proof. reflexivity. Qed.

Lemma normalize_action_nonempty action :
  action ≠ "" → normalize_action action = action.
Proof. intros H. unfold normalize_action. by case_decide. Qed.

Lemma normalize_action_idem action :
  normalize_action (normalize_action action) = normalize_action action.
Proof. unfold normalize_action. by repeat case_decide. Qed.

(** What [Next] leaves in the successor table of its receiver. *)
Lemma BaseNode_Next_successors b node action s :
  successors (st_heap (BaseNode_Next b node action s).2 !!! b)
  = <[normalize_action action := node]> (successors (st_heap s !!! b)).
Proof.
  unfold BaseNode_Next. unfold_M.
  destruct (successors (st_heap s !!! b) !! normalize_action action);
    simpl; by rewrite lookup_total_insert_eq.
Qed.

(** What [GetNextNode] returns: the entry under the normalised action,
    nil when there is none. *)
Lemma Flow_GetNextNode_value curr action s :
  (Flow_GetNextNode curr action s).1
  = default VNil (successors (st_heap s !!! curr) !! normalize_action action).
Proof.
  unfold Flow_GetNextNode. unfold_M.
  destruct (successors (st_heap s !!! curr) !! normalize_action action); [done|].
  by case_decide.
Qed.

(** C9. The empty action is the key "default", at registration and at
    lookup: [Next] with action "" does exactly what [Next] with action
    "default" does (same returned node, same heap, same log) and stores
    the target under "default"; [GetNextNode] with action "" does
    exactly what it does with "default" and returns the entry under
    "default". *)
Theorem C9_empty_action_is_default :
  (∀ (b : addr) (node : value) (s : state),
      BaseNode_Next b node "" s = BaseNode_Next b node "default" s
      ∧ successors (st_heap (BaseNode_Next b node "" s).2 !!! b) !! "default"
        = Some node)
  ∧ (∀ (curr : addr) (s : state),
      Flow_GetNextNode curr "" s = Flow_GetNextNode curr "default" s
      ∧ (Flow_GetNextNode curr "" s).1
        = default VNil (successors (st_heap s !!! curr) !! "default")).
Proof.
  split.
  - intros b node s. split.
    + unfold BaseNode_Next.
      by rewrite normalize_action_empty, normalize_action_default.
    + rewrite BaseNode_Next_successors, normalize_action_empty.
      apply lookup_insert_eq.
  - intros curr s. split.
    + unfold Flow_GetNextNode.
      by rewrite normalize_action_empty, normalize_action_default.
    + by rewrite Flow_GetNextNode_value, normalize_action_empty.
Qed.

(** ** AsyncNode on the synchronous path *)

(** C10. [AsyncNode.runInternal] returns the error "use RunAsync" and
    does nothing else: the state after the call is the state before it,
    so the shared store and the heap are unchanged and the trace has no
    new event, in particular no call of a Prep, Exec or Post. *)
Theorem C10_async_node_sync_run_refused :
  ∀ (a : Node) (s : state),
    AsyncNode_runInternal a s = (VErr "use RunAsync", s)
    ∧ st_shared (AsyncNode_runInternal a s).2 = st_shared s
    ∧ st_heap (AsyncNode_runInternal a s).2 = st_heap s
    ∧ st_trace (AsyncNode_runInternal a s).2 = st_trace s.
Proof. intros a s. by repeat split. Qed.

(** ** The synchronous retry executor *)

(** [execInternal] starts by resetting [curRetry], so the counter it
    finds is irrelevant. *)
Lemma Node_execInternal_with_curRetry exec fallback n i prepRes :
  Node_execInternal_with exec fallback (set_curRetry n i) prepRes
  = Node_execInternal_with exec fallback n prepRes.
Proof. reflexivity. Qed.

(** The whole behaviour of the synchronous executor: with a positive
    [maxRetries] it calls [Exec] once and returns its result, nil when
    [Exec] panicked; otherwise it returns nil without calling it. *)
Lemma Node_execInternal_with_spec exec fallback n prepRes :
  Node_execInternal_with exec fallback n prepRes
  = if decide (0 < maxRetries n)
    then (set_curRetry n 0,
          match exec prepRes with Returns v => v | Panics _ => VNil end,
          [EvCall M_Exec (node_base n)])
    else (set_curRetry n 0, VNil, []).
Proof.
  unfold Node_execInternal_with.
  destruct (Z.to_nat (maxRetries n)) as [|k] eqn:Hk; case_decide; try lia.
  - reflexivity.
  - simpl. by destruct (exec prepRes).
Qed.

Lemma Node_execInternal_with_node exec fallback n prepRes :
  (Node_execInternal_with exec fallback n prepRes).1.1 = set_curRetry n 0.
Proof. rewrite Node_execInternal_with_spec. by case_decide. Qed.

(** ** The batch executor *)

Lemma BatchNode_range_spec exec fallback items :
  ∀ (n : Node) (i : nat) (results : list value),
    length results = (i + length items)%nat →
    let out := BatchNode_range exec fallback n i items results in
    out.1.2
    = take i results
      ++ ((λ item, (Node_execInternal_with exec fallback n item).1.2) <$> items)
    ∧ out.2
      = concat ((λ item, (Node_execInternal_with exec fallback n item).2) <$> items).
Proof.
  induction items as [|item rest IH]; intros n i results Hlen; simpl in *.
  - split; [|done]. rewrite app_nil_r, firstn_all2; [done|lia].
  - destruct (Node_execInternal_with exec fallback n item) as [[n1 r] t1] eqn:E.
    assert (Hn1 : n1 = set_curRetry n 0).
    { pose proof (Node_execInternal_with_node exec fallback n item) as H.
      by rewrite E in H. }
    specialize (IH n1 (S i) (<[i := r]> results)).
    rewrite length_insert in IH. specialize (IH ltac:(lia)).
    destruct (BatchNode_range exec fallback n1 (S i) rest (<[i := r]> results))
      as [[n2 results'] t2]. simpl in *.
    destruct IH as [IHr IHt]. subst n1. split.
    + rewrite IHr.
      rewrite (take_S_r _ _ r) by (apply list_lookup_insert_eq; lia).
      rewrite take_insert_ge by lia.
      rewrite <- app_assoc. simpl. reflexivity.
    + by rewrite IHt.
Qed.

(** The batch executor is a map of the retry executor over the items. *)
Lemma BatchNode_execInternal_with_spec exec fallback b items :
  let out := BatchNode_execInternal_with exec fallback b (VList items) in
  out.1.2
  = VList ((λ item, (Node_execInternal_with exec fallback b item).1.2) <$> items)
  ∧ out.2
    = concat ((λ item, (Node_execInternal_with exec fallback b item).2) <$> items).
Proof.
  unfold BatchNode_execInternal_with.
  pose proof (BatchNode_range_spec exec fallback items b 0
                (replicate (length items) VNil)) as H.
  rewrite length_replicate in H. specialize (H eq_refl).
  destruct (BatchNode_range exec fallback b 0 items
              (replicate (length items) VNil)) as [[n results] t].
  simpl in *. destruct H as [-> ->]. done.
Qed.

(** C5. For every input list [items] of the batch executor, whatever
    [Exec] and fallback the retry executor is run with, the output is
    the list, in input order, of the results of the retry executor on
    each item: it has the length of the input, its element [i] is the
    retry executor's result on input [i] alone, and the events are those
    of the items one after the other.  A nil input and an empty input
    give an empty list with no event, so without any call of [Exec]. *)
Theorem C5_batch_executor_maps_in_order :
  ∀ (exec : value → outcome) (fallback : value → value → value) (b : Node),
    (∀ items : list value,
        ∃ results : list value,
          (BatchNode_execInternal_with exec fallback b (VList items)).1.2
          = VList results
          ∧ length results = length items
          ∧ (∀ i : nat,
                results !! i
                = (λ item, (Node_execInternal_with exec fallback b item).1.2)
                    <$> items !! i)
          ∧ (BatchNode_execInternal_with exec fallback b (VList items)).2
            = concat ((λ item, (Node_execInternal_with exec fallback b item).2)
                        <$> items))
    ∧ (BatchNode_execInternal_with exec fallback b VNil).1.2 = VList []
    ∧ (BatchNode_execInternal_with exec fallback b VNil).2 = []
    ∧ (BatchNode_execInternal_with exec fallback b (VList [])).1.2 = VList []
    ∧ (BatchNode_execInternal_with exec fallback b (VList [])).2 = [].
Proof.
  intros exec fallback b. split; [|done].
  intros items.
  destruct (BatchNode_execInternal_with_spec exec fallback b items) as [Hr Ht].
  eexists. split; [exact Hr|]. split; [by rewrite length_fmap|].
  split; [|exact Ht].
  intros i. by rewrite list_lookup_fmap.
Qed.

(** [BatchNode.execInternal] itself, with the [Exec] Go binds: every
    slot is the nil that [BaseNode.Exec] returns, or the nil of an
    executor whose [maxRetries] is not positive. *)
Corollary BatchNode_execInternal_nils b items :
  (BatchNode_execInternal b (VList items)).1.2 = VList (replicate (length items) VNil).
Proof.
  unfold BatchNode_execInternal.
  destruct (BatchNode_execInternal_with_spec Node_Exec Node_ExecFallback b items)
    as [-> _].
  f_equal. induction items as [|item rest IH]; [done|].
  rewrite fmap_cons. cbn [length replicate]. f_equal; [|exact IH].
  rewrite Node_execInternal_with_spec. by case_decide.
Qed.

(** The synchronous executor on an [Exec] that panics: one call, no
    sleep, no fallback, result nil. *)
Lemma Node_execInternal_with_panics exec fallback n prepRes r :
  0 < maxRetries n →
  exec prepRes = Panics r →
  Node_execInternal_with exec fallback n prepRes
  = (set_curRetry n 0, VNil, [EvCall M_Exec (node_base n)]).
Proof.
  intros Hn He. rewrite Node_execInternal_with_spec, He. by case_decide.
Qed.

(** C2. The retry policy (3, 10ms) on a node whose [Exec] panics with
    the error "transient error" on every call, as in the package's own
    retry test.  With that [Exec] at the call site, [Node.execInternal]
    calls it once, not three times, sleeps never, not twice, does not
    call the fallback, and returns nil, which is not the fallback's
    value: the recovering closure is deferred in the loop body, so it
    runs only when the function is left.  With the [Exec] Go binds at
    that call site, the promoted [BaseNode.Exec], the executor returns
    nil after one call as well; an [Exec] declared by a struct that
    embeds [*Node] is not called at all. *)
Theorem C2_sync_retry_stops_at_first_panic :
  let n := NewNode 1%nat 3 10000000 in
  let exec := λ _ : value, Panics (VErr "transient error") in
  let out := Node_execInternal_with exec Node_ExecFallback n VNil in
  calls M_Exec out.2 = 1%nat
  ∧ sleeps out.2 = []
  ∧ calls M_ExecFallback out.2 = 0%nat
  ∧ out.1.2 = VNil
  ∧ out.1.2 ≠ Node_ExecFallback VNil (VErr "transient error")
  ∧ Node_execInternal n VNil = (n, VNil, [EvCall M_Exec 1%nat]).
Proof. by repeat split. Qed.

(** ** The asynchronous retry executor *)

Lemma AsyncNode_loop_failed_attempt execAsync fallbackAsync a prepRes r e remaining i :
  execAsync prepRes = Panics r →
  recovered_error r = Some e →
  AsyncNode_execAsyncInternal_loop execAsync fallbackAsync (S remaining) a i prepRes
  = if decide (i = maxRetries a - 1)
    then (Some (fallbackAsync prepRes e),
          [EvCall M_ExecAsync (node_base a);
           EvCall M_ExecFallbackAsync (node_base a)])
    else
      let next := AsyncNode_execAsyncInternal_loop execAsync fallbackAsync
                    remaining a (i + 1) prepRes in
      (next.1, failed_attempt a ++ next.2).
Proof.
  intros He Hr. simpl. rewrite He, Hr. unfold AsyncNode_after_closure.
  case_decide; [done|].
  by destruct (AsyncNode_execAsyncInternal_loop execAsync fallbackAsync
                 remaining a (i + 1) prepRes).
Qed.

Lemma AsyncNode_loop_exhausted execAsync fallbackAsync a prepRes r e :
  execAsync prepRes = Panics r →
  recovered_error r = Some e →
  ∀ (remaining : nat) (i : Z),
    i + Z.of_nat (S remaining) = maxRetries a →
    AsyncNode_execAsyncInternal_loop execAsync fallbackAsync (S remaining) a i prepRes
    = (Some (fallbackAsync prepRes e),
       concat (replicate remaining (failed_attempt a))
       ++ [EvCall M_ExecAsync (node_base a);
           EvCall M_ExecFallbackAsync (node_base a)]).
Proof.
  intros He Hr. induction remaining as [|k IH]; intros i Hi;
    rewrite (AsyncNode_loop_failed_attempt _ _ _ _ _ _ _ _ He Hr).
  - case_decide; [done|lia].
  - case_decide; [lia|]. rewrite (IH (i + 1)) by lia.
    cbn [replicate concat fst snd]. by rewrite <- app_assoc.
Qed.

(** The asynchronous executor on an [ExecAsync] that always panics:
    [maxRetries] calls, a sleep after each but the last when [wait] is
    positive, then the fallback once, whose value is delivered. *)
Lemma AsyncNode_execAsyncInternal_exhausted execAsync fallbackAsync
    (a : Node) prepRes r e :
  (1 ≤ maxRetries a)%Z →
  execAsync prepRes = Panics r →
  recovered_error r = Some e →
  AsyncNode_execAsyncInternal_with execAsync fallbackAsync a prepRes
  = (Some (fallbackAsync prepRes e),
     concat (replicate (Z.to_nat (maxRetries a) - 1) (failed_attempt a))
     ++ [EvCall M_ExecAsync (node_base a);
         EvCall M_ExecFallbackAsync (node_base a)]).
Proof.
  intros Hn He Hr. unfold AsyncNode_execAsyncInternal_with.
  destruct (Z.to_nat (maxRetries a)) as [|k] eqn:Hk; [lia|].
  rewrite (AsyncNode_loop_exhausted _ _ _ _ _ _ He Hr) by lia.
  by replace (S k - 1)%nat with k by lia.
Qed.

(** The scenario of the specification, on the asynchronous executor:
    three attempts allowed, 10ms between them, [ExecAsync] always
    panics. *)
Example AsyncNode_three_attempts :
  let a := NewNode 1%nat 3 10000000 in
  let out := AsyncNode_execAsyncInternal_with
               (λ _, Panics (VErr "transient error"))
               AsyncNode_ExecFallbackAsync a VNil in
  out.1 = Some (VErr "transient error")
  ∧ calls M_ExecAsync out.2 = 3%nat
  ∧ sleeps out.2 = [10000000; 10000000]
  ∧ calls M_ExecFallbackAsync out.2 = 1%nat.
Proof. by repeat split. Qed.

Lemma AsyncNode_execAsyncInternal_returns execAsync fallbackAsync (a : Node) prepRes v :
  (1 ≤ maxRetries a)%Z →
  execAsync prepRes = Returns v →
  AsyncNode_execAsyncInternal_with execAsync fallbackAsync a prepRes
  = (Some v, [EvCall M_ExecAsync (node_base a)]).
Proof.
  intros Hn He. unfold AsyncNode_execAsyncInternal_with.
  destruct (Z.to_nat (maxRetries a)) as [|k] eqn:Hk; [lia|].
  simpl. by rewrite He.
Qed.

(** C8. The default fallback handlers return the error they are given;
    where the executors use a fallback, its value is handed on as it
    is.  In [Node.execInternal], the statements after [Exec] end the
    last attempt with the fallback's value when [err] is set, which is
    how they end an attempt whose [Exec] returned that same error value.
    [AsyncNode.execAsyncInternal] on an [ExecAsync] that panics with an
    error on every attempt delivers that error, exactly what it delivers
    when [ExecAsync] returns the error as its result.  The router looks
    up the message of an error action like the string with that
    content. *)
Theorem C8_default_fallback_is_an_ordinary_result :
  ∀ (n a : Node) (prepRes result : value) (msg : string),
    curRetry n = maxRetries n - 1 →
    (1 ≤ maxRetries a)%Z →
    Node_ExecFallback prepRes (VErr msg) = VErr msg
    ∧ AsyncNode_ExecFallbackAsync prepRes (VErr msg) = VErr msg
    ∧ (Node_after_Exec Node_ExecFallback n prepRes result (Some (VErr msg))).1
      = Done (VErr msg)
    ∧ (Node_after_Exec Node_ExecFallback n prepRes (VErr msg) None).1
      = Done (VErr msg)
    ∧ chan_recv (AsyncNode_execAsyncInternal_with (λ _, Panics (VErr msg))
                   AsyncNode_ExecFallbackAsync a prepRes).1
      = VErr msg
    ∧ chan_recv (AsyncNode_execAsyncInternal_with (λ _, Returns (VErr msg))
                   AsyncNode_ExecFallbackAsync a prepRes).1
      = VErr msg
    ∧ (∀ (curr : addr) (s : state),
          Flow_GetNextNode curr (Sprintf_v (VErr msg)) s
          = Flow_GetNextNode curr (Sprintf_v (VStr msg)) s).
Proof.
  intros n a prepRes result msg Hlast Hn.
  split; [done|]. split; [done|]. split.
  { unfold Node_after_Exec. by case_decide. }
  split; [done|]. split.
  { by rewrite (AsyncNode_execAsyncInternal_exhausted _ _ a prepRes
                  (VErr msg) (VErr msg)). }
  split; [|done].
  by rewrite (AsyncNode_execAsyncInternal_returns _ _ a prepRes (VErr msg)).
Qed.

(** ** The synchronous flow *)

(** One turn of the loop of [orchestrate] that finds no successor. *)
Lemma Flow_GetNextNode_absent curr action s :
  successors (st_heap s !!! curr) !! action = None →
  successors (st_heap s !!! curr) !! "default" = None →
  Flow_GetNextNode curr action s
  = (VNil,
     {| st_heap := st_heap s; st_shared := st_shared s;
        st_trace :=
          st_trace s
          ++ (if decide (0 < size (successors (st_heap s !!! curr)))%nat
              then [EvLog (LogFlowEnds (normalize_action action)
                             (dom (successors (st_heap s !!! curr))))]
              else []) |}).
Proof.
  intros Hact Hdef. unfold Flow_GetNextNode. unfold_M.
  assert (successors (st_heap s !!! curr) !! normalize_action action = None) as ->.
  { unfold normalize_action. by case_decide. }
  case_decide; [done|]. rewrite app_nil_r. by destruct s.
Qed.

(** One turn of the loop, with the state passing spelled out. *)
Lemma Flow_orchestrate_loop_step run fuel c ps last s :
  Flow_orchestrate_loop run (S fuel) (Some c) ps last s
  = let '(lastAction, s2) := run c (BaseNode_SetParams c ps s).2 in
    let '(nextNode, s3) := Flow_GetNextNode c (Sprintf_v lastAction) s2 in
    match nextNode with
    | VNil => (Some lastAction, s3)
    | _ =>
        match assert_ptr T_BaseNode nextNode with
        | None => (Some lastAction, s3)
        | Some nextBaseNode =>
            Flow_orchestrate_loop run fuel nextBaseNode ps lastAction s3
        end
    end.
Proof.
  cbn [Flow_orchestrate_loop]. unfold bind at 1.
  destruct (BaseNode_SetParams c ps s) as [[] s1]. cbn [snd].
  unfold bind at 1. destruct (run c s1) as [lastAction s2].
  unfold bind at 1.
  destruct (Flow_GetNextNode c (Sprintf_v lastAction) s2) as [nextNode s3].
  destruct nextNode; try reflexivity;
    destruct (assert_ptr _ _); reflexivity.
Qed.

(** C3. At any turn of the loop of [orchestrate], on any node [c] and
    whatever the node's run does: when the successor table of [c] has
    no entry for the returned action and no entry "default", the loop
    ends there for every positive fuel and returns that action itself;
    the store and the heap are those the node's run left; the only event
    added is the log line, and with an empty successor table there is no
    event at all. *)
Theorem C3_unresolved_action_ends_flow :
  ∀ (run : addr → M value) (fuel : nat) (c : addr)
    (ps : gmap string value) (last : value) (s : state),
    let after_run := run c (BaseNode_SetParams c ps s).2 in
    let action := after_run.1 in
    let succs := successors (st_heap after_run.2 !!! c) in
    let out := Flow_orchestrate_loop run (S fuel) (Some c) ps last s in
    succs !! Sprintf_v action = None →
    succs !! "default" = None →
    out.1 = Some action
    ∧ st_shared out.2 = st_shared after_run.2
    ∧ st_heap out.2 = st_heap after_run.2
    ∧ (∃ line, st_trace out.2 = st_trace after_run.2 ++ line
               ∧ (line = [] ∨ ∃ l, line = [EvLog l]))
    ∧ (succs = ∅ → st_trace out.2 = st_trace after_run.2).
Proof.
  intros run fuel c ps last s after_run action succs out Hact Hdef.
  subst out. rewrite Flow_orchestrate_loop_step.
  subst after_run action succs.
  destruct (run c (BaseNode_SetParams c ps s).2) as [action s2] eqn:E2.
  cbn [fst snd] in *.
  rewrite (Flow_GetNextNode_absent _ _ _ Hact Hdef).
  cbn. repeat split.
  - eexists. split; [reflexivity|]. case_decide; eauto.
  - intros ->. by rewrite map_size_empty, app_nil_r.
Qed.

(** The start of a flow whose start node is a [*BaseNode]. *)
Lemma Flow_orchestrate_with_start run fuel f ps c s :
  startNode f = VPtr T_BaseNode c →
  Flow_orchestrate_with run fuel f ps s
  = Flow_orchestrate_loop run fuel c (effective_params f ps s).1 VNil s.
Proof.
  intros Hstart. unfold Flow_orchestrate_with. rewrite Hstart.
  unfold bind at 1. destruct ps; reflexivity.
Qed.

(** A start node that is nil or whose dynamic type is not [*BaseNode]:
    [orchestrate] returns nil and does nothing. *)
Lemma Flow_orchestrate_with_not_BaseNode run fuel f ps s :
  assert_ptr T_BaseNode (startNode f) = None →
  Flow_orchestrate_with run fuel f ps s = (Some VNil, s).
Proof.
  intros Hstart. unfold Flow_orchestrate_with.
  destruct (startNode f); try reflexivity;
    rewrite Hstart; unfold bind; destruct ps; reflexivity.
Qed.

(** [Flow.runInternal] returns what [orchestrate] returned. *)
Lemma Flow_runInternal_result fuel f s :
  (Flow_runInternal fuel f s).1
  = (Flow_orchestrate fuel f None (BaseNode_Prep (flow_base f) s).2).1.
Proof.
  unfold Flow_runInternal. unfold bind at 1.
  destruct (BaseNode_Prep (flow_base f) s) as [prepRes s1]. cbn [snd].
  unfold bind at 1.
  destruct (Flow_orchestrate fuel f None s1) as [[orchRes|] s2]; reflexivity.
Qed.

(** *** Flows over nodes of other types *)

(** C1. A flow in the shape of the package's own flow test and of the
    research-agent example: the start node A is a struct that embeds
    [*BaseNode] and declares its own methods, among them a [Post] that
    returns "x"; B, of the same kind, is registered as A's successor
    under "x".  [orchestrate] asserts the start node to [*BaseNode],
    which fails for such a struct: it returns nil with the state
    untouched, so no method of A or of B is entered.  With A and B
    plain [*BaseNode] values the lifecycle that runs is the no-op one of
    [BaseNode], whose [Post] returns nil: the flow looks up "<nil>" and
    ends after A when B is registered under "x", and goes on to B when B
    is registered under "<nil>".  The exported [Run] of a flow is the
    promoted [BaseNode.Run]: it runs the no-op lifecycle of the flow's
    own [BaseNode] and does not reach [orchestrate]. *)
Theorem C1_flow_does_not_run_custom_nodes :
  ∀ fuel : nat,
    let A := VPtr (T_Custom "startTestNode") (Some 1%nat) in
    let B := VPtr (T_Custom "node1TestNode") (Some 2%nat) in
    let s := initial_state (two_node_heap "x" B) in
    Flow_orchestrate fuel (NewFlow 0%nat A) None s = (Some VNil, s)
    ∧ st_trace (Flow_runInternal fuel (NewFlow 0%nat A) s).2
      = [EvCall M_Prep 0%nat; EvCall M_Post 0%nat]
    ∧ st_trace (BaseNode_Run (flow_base (NewFlow 0%nat A)) s).2
      = [EvCall M_Prep 0%nat; EvCall M_Exec 0%nat; EvCall M_Post 0%nat]
    ∧ (let A' := VPtr T_BaseNode (Some 1%nat) in
       let B' := VPtr T_BaseNode (Some 2%nat) in
       let out := Flow_orchestrate (S (S fuel)) (NewFlow 0%nat A') None
                    (initial_state (two_node_heap "x" B')) in
       out.1 = Some VNil
       ∧ st_trace out.2
         = [EvCall M_Prep 1%nat; EvCall M_Exec 1%nat; EvCall M_Post 1%nat;
            EvLog (LogFlowEnds "<nil>" {["x"]})])
    ∧ (let A' := VPtr T_BaseNode (Some 1%nat) in
       let B' := VPtr T_BaseNode (Some 2%nat) in
       let out := Flow_orchestrate (S (S fuel)) (NewFlow 0%nat A') None
                    (initial_state (two_node_heap "<nil>" B')) in
       out.1 = Some VNil
       ∧ st_trace out.2
         = [EvCall M_Prep 1%nat; EvCall M_Exec 1%nat; EvCall M_Post 1%nat;
            EvCall M_Prep 2%nat; EvCall M_Exec 2%nat; EvCall M_Post 2%nat]).
Proof.
  intros fuel. cbn zeta. split; [|split; [|split; [|split]]].
  - by apply Flow_orchestrate_with_not_BaseNode.
  - unfold Flow_runInternal, Flow_orchestrate, BaseNode_Prep, Flow_Post.
    unfold_M. by rewrite Flow_orchestrate_with_not_BaseNode.
  - reflexivity.
  - unfold Flow_orchestrate.
    rewrite (Flow_orchestrate_with_start _ _ _ _ (Some 1%nat)) by done.
    rewrite Flow_orchestrate_loop_step. vm_compute. done.
  - unfold Flow_orchestrate.
    rewrite (Flow_orchestrate_with_start _ _ _ _ (Some 1%nat)) by done.
    rewrite Flow_orchestrate_loop_step.
    vm_compute. done.
Qed.

(** ** The asynchronous flow *)

(** The assertion in the loop of [orchestrateAsync] is made on a value
    whose dynamic type is [*BaseNode]. *)
Lemma curr_is_not_AsyncNode (c : option addr) :
  assert_ptr T_AsyncNode (VPtr T_BaseNode c) = None.
Proof. reflexivity. Qed.

(** Hence the loop of [orchestrateAsync] is the loop of [orchestrate]:
    the asynchronous lifecycle is never started. *)
Lemma AsyncFlow_loop_is_Flow_loop run runAsync fuel :
  ∀ curr ps last s,
    AsyncFlow_orchestrateAsync_loop run runAsync fuel curr ps last s
    = Flow_orchestrate_loop run fuel curr ps last s.
Proof.
  induction fuel as [|fuel IH]; intros [c|] ps last s; try reflexivity.
  rewrite Flow_orchestrate_loop_step.
  cbn [AsyncFlow_orchestrateAsync_loop]. rewrite curr_is_not_AsyncNode.
  unfold bind at 1. destruct (BaseNode_SetParams c ps s) as [[] s1]. cbn [snd].
  unfold bind at 1. destruct (run c s1) as [lastAction s2].
  unfold bind at 1.
  destruct (Flow_GetNextNode c (Sprintf_v lastAction) s2) as [nextNode s3].
  destruct nextNode; try reflexivity;
    destruct (assert_ptr _ _); try reflexivity; apply IH.
Qed.

Lemma AsyncFlow_orchestrateAsync_with_is_sync run runAsync fuel a ps s :
  AsyncFlow_orchestrateAsync_with run runAsync fuel a ps s
  = Flow_orchestrate_with run fuel a ps s.
Proof.
  unfold AsyncFlow_orchestrateAsync_with, Flow_orchestrate_with.
  destruct (startNode a); try reflexivity.
  unfold bind. destruct (effective_params a ps s) as [ps' s'].
  destruct (assert_ptr _ _); [|reflexivity].
  apply AsyncFlow_loop_is_Flow_loop.
Qed.

(** C4. [orchestrateAsync] never runs an asynchronous lifecycle.  Its
    result does not depend on what [runAsyncInternal] would do: it is
    the result of the synchronous [orchestrate].  An async flow whose
    start node is an [*AsyncNode] returns nil with the state untouched,
    no phase of the node being run; a [*BaseNode] start node whose
    successor under "<nil>" is an [*AsyncNode] runs its own no-op
    lifecycle and the flow ends there, the async node being skipped. *)
Theorem C4_async_flow_runs_no_async_node :
  (∀ (run runAsync : addr → M value) (fuel : nat) (a : Flow)
     (ps : option (gmap string value)) (s : state),
      AsyncFlow_orchestrateAsync_with run runAsync fuel a ps s
      = Flow_orchestrate_with run fuel a ps s)
  ∧ (∀ (async_node_at : addr → Node) (fuel : nat),
        let B := VPtr T_AsyncNode (Some 2%nat) in
        let s := initial_state (two_node_heap "<nil>" B) in
        AsyncFlow_orchestrateAsync async_node_at fuel (NewFlow 0%nat B) None s
        = (Some VNil, s)
        ∧ (let A := VPtr T_BaseNode (Some 1%nat) in
           let out := AsyncFlow_orchestrateAsync async_node_at (S fuel)
                        (NewFlow 0%nat A) None s in
           out.1 = Some VNil
           ∧ st_trace out.2
             = [EvCall M_Prep 1%nat; EvCall M_Exec 1%nat; EvCall M_Post 1%nat])).
Proof.
  split; [apply AsyncFlow_orchestrateAsync_with_is_sync|].
  intros async_node_at fuel. cbn zeta. unfold AsyncFlow_orchestrateAsync.
  rewrite !AsyncFlow_orchestrateAsync_with_is_sync. split.
  - by apply Flow_orchestrate_with_not_BaseNode.
  - rewrite (Flow_orchestrate_with_start _ _ _ _ (Some 1%nat)) by done.
    rewrite Flow_orchestrate_loop_step. vm_compute. done.
Qed.

(** ** The batch flow *)

(** What the loop of [BatchFlow.runInternal] does with a list of
    override maps, were [Prep] to return one: a run of [orchestrate] per
    map, in order, each with the map merged over the flow's own
    parameters. *)
Lemma BatchFlow_range_cons run fuel b (bpMap : gmap string value) rest s :
  BatchFlow_range run fuel b (VMap bpMap :: rest) s
  = match Flow_orchestrate_with run fuel b
            (Some (bpMap ∪ params (st_heap s !!! flow_base b))) s with
    | (Some _, s') => BatchFlow_range run fuel b rest s'
    | (None, s') => (None, s')
    end.
Proof.
  cbn [BatchFlow_range assert_map]. unfold bind, get_node.
  by destruct (Flow_orchestrate_with _ _ _ _ _) as [[?|] ?].
Qed.

Lemma merged_params_lookup (bpMap defaults : gmap string value) k :
  (bpMap ∪ defaults) !! k
  = match bpMap !! k with Some v => Some v | None => defaults !! k end.
Proof.
  destruct (bpMap !! k) eqn:E.
  - by apply lookup_union_Some_l.
  - by rewrite lookup_union_r.
Qed.

(** C7. [BatchFlow.runInternal] on any batch flow: the [Prep] it calls
    is [BaseNode.Prep], which returns nil, so the list of overrides is
    empty and [orchestrate] is not run once; the events are the entry of
    [BaseNode.Prep] and of [Flow.Post] on the flow itself, and the
    result is the nil that [Flow.Post] was handed.  A [Prep] declared by
    a struct that embeds [*BatchFlow] is not the one called. *)
Theorem C7_batch_flow_runs_no_flow :
  ∀ (fuel : nat) (b : Flow) (s : state),
    BatchFlow_runInternal fuel b s
    = (Some VNil,
       {| st_heap := st_heap s; st_shared := st_shared s;
          st_trace := st_trace s ++ [EvCall M_Prep (flow_base b);
                                     EvCall M_Post (flow_base b)] |}).
Proof.
  intros fuel b s.
  unfold BatchFlow_runInternal, BatchFlow_runInternal_with, BaseNode_Prep, Flow_Post.
  unfold_M. cbn. by rewrite <- app_assoc.
Qed.

(** ** The parallel batch executor *)

(** For every input slice there is a schedule, the one in which the
    outer goroutine (which waits for nothing) returns before anything
    else happens, where the caller's receive completes on the closed
    channel with nil while every task is still running. *)
Lemma par_closed_before_sent execAsync fallbackAsync a (items : list value) :
  ∃ s,
    par_run execAsync fallbackAsync a [StepOuterReturn; StepReceive]
      (par_start (VList items)) = Some s
    ∧ ps_received s = Some VNil
    ∧ ps_tasks s = Some <$> items
    ∧ ps_wg s = length items.
Proof. eexists. by repeat split. Qed.

(** Once [result] is closed the collector cannot publish: when the
    barrier opens, its send panics. *)
Lemma par_send_after_close_panics execAsync fallbackAsync a s results :
  ch_closed (ps_result s) = true →
  ps_collector s = CollWaiting →
  ps_wg s = 0%nat →
  collect_results (ps_chans s) = Some results →
  ∃ s', par_step execAsync fallbackAsync a StepCollect s = Some s'
        ∧ ps_collector s' = CollPanicked
        ∧ ps_result s' = ps_result s
        ∧ ps_received s' = ps_received s.
Proof.
  intros Hclosed Hcoll Hwg Hres. unfold par_step.
  rewrite Hcoll, Hwg, Hres, Hclosed. eexists. by repeat split.
Qed.

(** *** Schedules in which the collector sends before [result] is closed *)

Lemma insert_imap {A B} (g h : nat → A → B) (l : list A) (idx : nat)
    (x : A) (v : B) :
  l !! idx = Some x →
  h idx x = v →
  (∀ i y, i ≠ idx → h i y = g i y) →
  <[idx := v]> (imap g l) = imap h l.
Proof.
  intros Hx Hv Hother. apply list_eq. intros i.
  destruct (decide (i = idx)) as [->|Hne].
  - rewrite list_lookup_insert_eq.
    + by rewrite list_lookup_imap, Hx, <- Hv.
    + rewrite length_imap. by eapply lookup_lt_Some.
  - rewrite list_lookup_insert_ne by done.
    rewrite !list_lookup_imap. destruct (l !! i) as [y|] eqn:E; [|done].
    simpl. by rewrite Hother.
Qed.

Lemma tasks_finished_start execAsync fallbackAsync a items :
  tasks_finished execAsync fallbackAsync a items [] (par_start (VList items)).
Proof.
  unfold tasks_finished, par_start. cbn. repeat split.
  - apply NoDup_nil_2.
  - intros i Hi. by apply elem_of_nil in Hi.
  - apply Nat.add_0_r.
  - apply list_eq. intros i. by rewrite list_lookup_imap, list_lookup_fmap.
  - apply list_eq. intros i. rewrite list_lookup_imap.
    destruct (items !! i) eqn:E.
    + rewrite lookup_replicate_2; [done|]. by eapply lookup_lt_Some.
    + simpl. apply lookup_ge_None. rewrite length_replicate.
      by apply lookup_ge_None.
Qed.

(** A task that is still running can always move, whatever the other
    tasks have done, and touches only its own slot. *)
Lemma tasks_finished_step execAsync fallbackAsync a items finished s idx :
  tasks_finished execAsync fallbackAsync a items finished s →
  (idx < length items)%nat →
  idx ∉ finished →
  ∃ s', par_step execAsync fallbackAsync a (StepTask idx) s = Some s'
        ∧ tasks_finished execAsync fallbackAsync a items (idx :: finished) s'.
Proof.
  intros (Hnd & Hlt & Hres & Hout & Hcoll & Hrecv & Hwg & Htasks & Hchans)
    Hidx Hnew.
  assert (Hnd' : NoDup (idx :: finished)) by by apply NoDup_cons.
  assert (Hlt' : ∀ i, i ∈ idx :: finished → (i < length items)%nat).
  { intros i [->|Hi]%elem_of_cons; auto. }
  assert (Hroom : (length (idx :: finished) ≤ length items)%nat).
  { rewrite <- (length_seq (length items) 0). apply submseteq_length.
    apply NoDup_submseteq; [done|].
    intros i Hi. apply elem_of_seq. specialize (Hlt' i Hi). lia. }
  cbn [length] in Hroom.
  destruct (lookup_lt_is_Some_2 items idx Hidx) as [item Hitem].
  unfold par_step. rewrite Htasks, list_lookup_imap, Hitem.
  cbn [fmap option_fmap option_map].
  rewrite decide_False by done.
  destruct (AsyncNode_execAsyncInternal_with execAsync fallbackAsync a item)
    as [sent t] eqn:E.
  eexists. split; [reflexivity|].
  unfold tasks_finished. cbn. repeat split; try done.
  - lia.
  - apply (insert_imap _ _ items idx item None Hitem).
    + rewrite decide_True; [done|by left].
    + intros i y Hne. destruct (decide (i ∈ finished)).
      * rewrite decide_True; [done|by right].
      * rewrite decide_False; [done|by intros [?|?]%elem_of_cons].
  - rewrite Hchans. apply (insert_imap _ _ items idx item _ Hitem).
    + rewrite decide_True by by left. unfold task_result. by rewrite E.
    + intros i y Hne. destruct (decide (i ∈ finished)).
      * rewrite decide_True; [done|by right].
      * rewrite decide_False; [done|by intros [?|?]%elem_of_cons].
Qed.

Lemma par_run_app execAsync fallbackAsync a sched1 sched2 s :
  par_run execAsync fallbackAsync a (sched1 ++ sched2) s
  = match par_run execAsync fallbackAsync a sched1 s with
    | None => None
    | Some s' => par_run execAsync fallbackAsync a sched2 s'
    end.
Proof.
  revert s. induction sched1 as [|st sched1 IH]; intros s; [done|].
  cbn [app par_run]. by destruct (par_step _ _ _ st s).
Qed.

(** The tasks may finish in any order. *)
Lemma tasks_finished_run execAsync fallbackAsync a items order :
  ∀ finished s,
    tasks_finished execAsync fallbackAsync a items finished s →
    NoDup (order ++ finished) →
    (∀ idx, idx ∈ order → (idx < length items)%nat) →
    ∃ s', par_run execAsync fallbackAsync a (StepTask <$> order) s = Some s'
          ∧ tasks_finished execAsync fallbackAsync a items
              (reverse order ++ finished) s'.
Proof.
  induction order as [|idx order IH]; intros finished s Hs Hnd Hlt.
  - by exists s.
  - cbn [app] in Hnd. apply NoDup_cons in Hnd as [Hnew Hnd].
    apply not_elem_of_app in Hnew as [Hnew1 Hnew2].
    destruct (tasks_finished_step _ _ _ _ _ _ idx Hs) as (s1 & Hstep & Hs1).
    + apply Hlt. by left.
    + done.
    + destruct (IH (idx :: finished) s1 Hs1) as (s' & Hrun & Hs').
      * apply NoDup_app. apply NoDup_app in Hnd as (Ho & Hdisj & Hf).
        split; [done|]. split; [|by apply NoDup_cons].
        intros i Hi [->|Hin]%elem_of_cons; [done|]. by apply (Hdisj i).
      * intros i Hi. apply Hlt. by right.
      * exists s'. split.
        -- cbn [fmap list_fmap par_run]. by rewrite Hstep.
        -- by rewrite reverse_cons, <- app_assoc.
Qed.

(** When every task is over, in whatever order, and the collector sends
    before the outer goroutine returns, the caller receives the results
    in input order: slot [i] is the result of the retry-wrapped
    [ExecAsync] on item [i]. *)
Lemma par_ordered_when_sent_before_close execAsync fallbackAsync a items order :
  order ≡ₚ seq 0 (length items) →
  ∃ s,
    par_run execAsync fallbackAsync a
      ((StepTask <$> order) ++ [StepCollect; StepOuterReturn; StepReceive])
      (par_start (VList items)) = Some s
    ∧ ps_received s
      = Some (VList (task_result execAsync fallbackAsync a <$> items)).
Proof.
  intros Hperm.
  destruct (tasks_finished_run execAsync fallbackAsync a items order []
              (par_start (VList items)))
    as (s1 & Hrun & (_ & _ & Hres & Hout & Hcoll & Hrecv & Hwg & Htasks & Hchans)).
  - apply tasks_finished_start.
  - rewrite app_nil_r, Hperm. apply NoDup_seq.
  - intros idx Hidx. rewrite Hperm in Hidx. apply elem_of_seq in Hidx. lia.
  - rewrite app_nil_r in *.
    assert (Hall : ∀ i, (i < length items)%nat → i ∈ reverse order).
    { intros i Hi. rewrite elem_of_reverse, Hperm. apply elem_of_seq. lia. }
    assert (Hwg0 : ps_wg s1 = 0%nat).
    { rewrite length_reverse, Hperm, length_seq in Hwg. lia. }
    assert (Hcollect : collect_results (ps_chans s1)
                       = Some (task_result execAsync fallbackAsync a <$> items)).
    { unfold collect_results. apply mapM_Some. rewrite Hchans.
      apply Forall2_same_length_lookup. split.
      - by rewrite length_imap, length_fmap.
      - intros i ch v Hch Hv. rewrite list_lookup_imap in Hch.
        rewrite list_lookup_fmap in Hv.
        destruct (items !! i) as [item|] eqn:E; [|done].
        cbn in *. rewrite decide_True in Hch.
        + by simplify_eq.
        + apply Hall. by eapply lookup_lt_Some. }
    rewrite par_run_app, Hrun. cbn [par_run par_step].
    rewrite Hcoll, Hwg0, Hcollect, Hres, Hout, Hrecv. cbn.
    eexists. by split.
Qed.

(** C6. The parallel batch executor on the three items [1, 2, 3].  In
    the schedule where the outer goroutine returns first, its deferred
    [close(result)] runs before any task has finished: the caller's
    receive yields nil, not a list of length three, with all three tasks
    still running; when the tasks are over (here in the order 2, 0, 1)
    the collector's send on the closed channel panics and nothing is
    published.  Only in a schedule where the collector sends before the
    outer goroutine returns does the caller receive the three slots in
    input order. *)
Theorem C6_parallel_batch_result_closed_before_sent :
  let a := NewNode 1%nat 1 0 in
  let items := VList [VInt 1; VInt 2; VInt 3] in
  (∃ s,
      AsyncParallelBatchNode_execAsyncInternal a items
        [StepOuterReturn; StepReceive] = Some s
      ∧ ps_received s = Some VNil
      ∧ ps_wg s = 3%nat)
  ∧ (∃ s,
        AsyncParallelBatchNode_execAsyncInternal a items
          [StepOuterReturn; StepReceive; StepTask 2; StepTask 0; StepTask 1;
           StepCollect] = Some s
        ∧ ps_received s = Some VNil
        ∧ ps_collector s = CollPanicked
        ∧ ch_buf (ps_result s) = None)
  ∧ (∃ s,
        AsyncParallelBatchNode_execAsyncInternal a items
          [StepTask 2; StepTask 0; StepTask 1; StepCollect; StepOuterReturn;
           StepReceive] = Some s
        ∧ ps_received s = Some (VList [VNil; VNil; VNil])
        ∧ ps_collector s = CollSent).
Proof.
  cbn zeta. split; [|split]; eexists; by repeat split.
Qed.

(** * Further properties of the engine *)

(** ** Wiring and lookup *)

(** What [Next] returns and what it adds to the trace. *)
Lemma BaseNode_Next_result b node action s :
  BaseNode_Next b node action s
  = (node,
     {| st_heap :=
          <[b := {| params := params (st_heap s !!! b);
                    successors := <[normalize_action action := node]>
                                    (successors (st_heap s !!! b)) |}]>
            (st_heap s);
        st_shared := st_shared s;
        st_trace :=
          st_trace s
          ++ match successors (st_heap s !!! b) !! normalize_action action with
             | Some _ => [EvLog (LogOverwrite (normalize_action action))]
             | None => []
             end |}).
Proof.
  unfold BaseNode_Next. unfold_M.
  destruct (successors (st_heap s !!! b) !! normalize_action action); cbn.
  - reflexivity.
  - rewrite app_nil_r. by destruct s.
Qed.

(** X1. Registration and lookup round trip: a node registered with [Next],
    directly or through a conditional transition, is what [GetNextNode]
    returns for the same action on the same node, and [Next] hands its
    target back so that calls can be chained. *)
Theorem Next_GetNextNode_round_trip :
  ∀ (b : addr) (node : value) (action : string) (s : state),
    (BaseNode_Next b node action s).1 = node
    ∧ (Flow_GetNextNode b action (BaseNode_Next b node action s).2).1 = node
    ∧ (conditionalTransition_Next (newConditionalTransition b action) node s).1
      = node
    ∧ (Flow_GetNextNode b action
         (conditionalTransition_Next (newConditionalTransition b action)
            node s).2).1 = node.
Proof.
  intros b node action s.
  assert (H : (Flow_GetNextNode b action (BaseNode_Next b node action s).2).1
              = node).
  { rewrite Flow_GetNextNode_value, BaseNode_Next_successors.
    by rewrite lookup_insert_eq. }
  unfold conditionalTransition_Next, newConditionalTransition.
  cbn [ct_src ct_action].
  repeat split; try exact H; by rewrite BaseNode_Next_result.
Qed.

(** X2. [Next] touches one entry of one table: the store, the parameters of
    every node, the successor tables of the other nodes and the other
    entries of the receiver's table are as before. *)
Theorem Next_changes_one_entry :
  ∀ (b b' : addr) (node : value) (action action' : string) (s : state),
    normalize_action action' ≠ normalize_action action →
    b' ≠ b →
    let s' := (BaseNode_Next b node action s).2 in
    st_shared s' = st_shared s
    ∧ params (st_heap s' !!! b) = params (st_heap s !!! b)
    ∧ st_heap s' !!! b' = st_heap s !!! b'
    ∧ successors (st_heap s' !!! b) !! normalize_action action'
      = successors (st_heap s !!! b) !! normalize_action action'
    ∧ (Flow_GetNextNode b action' s').1 = (Flow_GetNextNode b action' s).1.
Proof.
  intros b b' node action action' s Hact Hb. cbn zeta.
  rewrite !Flow_GetNextNode_value, BaseNode_Next_successors.
  rewrite BaseNode_Next_result. cbn.
  rewrite lookup_total_insert_eq, lookup_total_insert_ne by done. cbn.
  by rewrite lookup_insert_ne.
Qed.

(** X3. Registering twice under one action: the second target replaces the
    first, the table does not grow, and the second call logs the
    overwrite warning. *)
Theorem Next_overwrites :
  ∀ (b : addr) (first second : value) (action : string) (s : state),
    let s1 := (BaseNode_Next b first action s).2 in
    let s2 := (BaseNode_Next b second action s1).2 in
    (Flow_GetNextNode b action s2).1 = second
    ∧ successors (st_heap s2 !!! b)
      = <[normalize_action action := second]> (successors (st_heap s !!! b))
    ∧ size (successors (st_heap s2 !!! b)) = size (successors (st_heap s1 !!! b))
    ∧ st_trace s2
      = st_trace s1 ++ [EvLog (LogOverwrite (normalize_action action))].
Proof.
  intros b first second action s. cbn zeta.
  rewrite Flow_GetNextNode_value, !BaseNode_Next_successors.
  rewrite lookup_insert_eq, insert_insert_eq. repeat split.
  - by rewrite !map_size_insert.
  - rewrite (BaseNode_Next_result b second), BaseNode_Next_successors.
    cbn. by rewrite lookup_insert_eq.
Qed.

Lemma Flow_GetNextNode_frame :
  ∀ (curr : addr) (action : string) (s : state),
    let out := Flow_GetNextNode curr action s in
    let succs := successors (st_heap s !!! curr) in
    st_heap out.2 = st_heap s
    ∧ st_shared out.2 = st_shared s
    ∧ st_trace out.2
      = st_trace s
        ++ (if bool_decide (succs !! normalize_action action = None
                            ∧ succs ≠ ∅)
            then [EvLog (LogFlowEnds (normalize_action action) (dom succs))]
            else []).
Proof.
  intros curr action s. cbn zeta. unfold Flow_GetNextNode. unfold_M.
  destruct (successors (st_heap s !!! curr) !! normalize_action action) eqn:E.
  - rewrite bool_decide_eq_false_2 by (by intros [? _]).
    cbn. by rewrite app_nil_r.
  - case_decide as Hsize.
    + rewrite bool_decide_eq_true_2; [done|]. split; [done|].
      intros Hempty. rewrite Hempty, map_size_empty in Hsize. lia.
    + rewrite bool_decide_eq_false_2; [cbn; by rewrite app_nil_r|].
      intros [_ Hne]. apply Hne. apply map_size_empty_iff. lia.
Qed.

(** X4. [GetNextNode] only reads: the heap and the store are untouched, and
    the one event it can add is the diagnostic, added exactly when the
    key is absent from a table that is not empty. *)
Theorem GetNextNode_reads_only :
  ∀ (curr : addr) (action : string) (s : state),
    let out := Flow_GetNextNode curr action s in
    let succs := successors (st_heap s !!! curr) in
    st_heap out.2 = st_heap s
    ∧ st_shared out.2 = st_shared s
    ∧ st_trace out.2
      = st_trace s
        ++ (if bool_decide (succs !! normalize_action action = None
                            ∧ succs ≠ ∅)
            then [EvLog (LogFlowEnds (normalize_action action) (dom succs))]
            else []).
Proof. exact Flow_GetNextNode_frame. Qed.

(** X5. The router has no fallback to "default": an action that is not the
    empty string and is not registered resolves to nil even when a
    "default" successor is registered, whereas the lookup the package's
    transition test substitutes returns that default. *)
Theorem GetNextNode_unknown_action_ignores_default :
  ∀ (curr : addr) (action : string) (d : value) (s : state),
    action ≠ "" →
    successors (st_heap s !!! curr) !! action = None →
    successors (st_heap s !!! curr) !! "default" = Some d →
    (Flow_GetNextNode curr action s).1 = VNil
    ∧ (Flow_GetNextNode curr "" s).1 = d
    ∧ (transitionTestFlow_GetNextNode curr action s).1 = d.
Proof.
  intros curr action d s Hne Hact Hdef.
  rewrite !Flow_GetNextNode_value, normalize_action_empty, Hdef.
  rewrite normalize_action_nonempty, Hact by done. repeat split.
  unfold transitionTestFlow_GetNextNode. unfold_M.
  by rewrite normalize_action_nonempty, Hact, Hdef.
Qed.

(** X6. The two lookups agree whenever the action is registered or no
    "default" is. *)
Theorem transitionTestFlow_GetNextNode_agrees :
  ∀ (curr : addr) (action : string) (s : state),
    is_Some (successors (st_heap s !!! curr) !! normalize_action action)
    ∨ successors (st_heap s !!! curr) !! "default" = None →
    (transitionTestFlow_GetNextNode curr action s).1
    = (Flow_GetNextNode curr action s).1.
Proof.
  intros curr action s H. rewrite Flow_GetNextNode_value.
  unfold transitionTestFlow_GetNextNode. unfold_M.
  destruct (successors (st_heap s !!! curr) !! normalize_action action) eqn:E;
    [done|].
  destruct H as [[? H]|H]; [done|]. by rewrite H.
Qed.

(** ** Counting events *)

Lemma calls_app m t1 t2 : calls m (t1 ++ t2) = (calls m t1 + calls m t2)%nat.
Proof. unfold calls. by rewrite List.filter_app, length_app. Qed.

Lemma sleeps_app t1 t2 : sleeps (t1 ++ t2) = sleeps t1 ++ sleeps t2.
Proof. unfold sleeps. apply omap_app. Qed.

Lemma calls_failed_attempts m a k :
  calls m (concat (replicate k (failed_attempt a)))
  = (k * calls m (failed_attempt a))%nat.
Proof.
  induction k as [|k IH]; [done|].
  cbn [replicate concat]. rewrite calls_app, IH. lia.
Qed.

Lemma sleeps_failed_attempts a k :
  sleeps (concat (replicate k (failed_attempt a)))
  = if decide (0 < wait a) then replicate k (wait a) else [].
Proof.
  induction k as [|k IH].
  - by case_decide.
  - cbn [replicate concat]. rewrite sleeps_app, IH.
    unfold failed_attempt. by case_decide.
Qed.

Lemma calls_ExecAsync_failed_attempt a :
  calls M_ExecAsync (failed_attempt a) = 1%nat.
Proof. unfold failed_attempt. by case_decide. Qed.

Lemma calls_ExecFallbackAsync_failed_attempt a :
  calls M_ExecFallbackAsync (failed_attempt a) = 0%nat.
Proof. unfold failed_attempt. by case_decide. Qed.

Lemma calls_concat_fmap {A} m (f : A → trace) (l : list A) (k : nat) :
  (∀ x, calls m (f x) = k) →
  calls m (concat (f <$> l)) = (length l * k)%nat.
Proof.
  intros Hf. induction l as [|x l IH]; [done|].
  rewrite fmap_cons. cbn [concat length]. rewrite calls_app, Hf, IH. lia.
Qed.

(** ** More on the retry executors *)

(** X7. [Node.execInternal], whatever [Exec] and the fallback do and
    whatever the retry policy is: [Exec] is called once when
    [maxRetries] is positive and not at all otherwise, the fallback is
    never called, the executor never sleeps, the counter is left at
    zero, and the result is what [Exec] returned, nil when it panicked
    or was not called. *)
Theorem Node_execInternal_never_retries :
  ∀ (exec : value → outcome) (fallback : value → value → value)
    (n : Node) (prepRes : value),
    let out := Node_execInternal_with exec fallback n prepRes in
    calls M_Exec out.2 = (if decide (0 < maxRetries n)%Z then 1%nat else 0%nat)
    ∧ calls M_ExecFallback out.2 = 0%nat
    ∧ sleeps out.2 = []
    ∧ curRetry out.1.1 = 0
    ∧ out.1.2 = (if decide (0 < maxRetries n)
                 then match exec prepRes with
                      | Returns v => v
                      | Panics _ => VNil
                      end
                 else VNil).
Proof.
  intros exec fallback n prepRes. cbn zeta.
  rewrite Node_execInternal_with_spec. by case_decide.
Qed.

(** The whole behaviour of the asynchronous executor, by cases on the
    policy and on what [ExecAsync] does with the argument. *)
Lemma AsyncNode_execAsyncInternal_with_spec execAsync fallbackAsync
    (a : Node) prepRes :
  AsyncNode_execAsyncInternal_with execAsync fallbackAsync a prepRes
  = if decide (0 < maxRetries a)
    then match execAsync prepRes with
         | Returns v => (Some v, [EvCall M_ExecAsync (node_base a)])
         | Panics r =>
             match recovered_error r with
             | None => (None, [EvCall M_ExecAsync (node_base a)])
             | Some e =>
                 (Some (fallbackAsync prepRes e),
                  concat (replicate (Z.to_nat (maxRetries a) - 1)
                            (failed_attempt a))
                  ++ [EvCall M_ExecAsync (node_base a);
                      EvCall M_ExecFallbackAsync (node_base a)])
             end
         end
    else (None, []).
Proof.
  case_decide as Hn.
  - destruct (execAsync prepRes) as [v|r] eqn:He.
    + apply AsyncNode_execAsyncInternal_returns; [lia|done].
    + destruct (recovered_error r) as [e|] eqn:Hr.
      * apply (AsyncNode_execAsyncInternal_exhausted _ _ _ _ r); [lia|done..].
      * unfold AsyncNode_execAsyncInternal_with.
        destruct (Z.to_nat (maxRetries a)) as [|k] eqn:Hk; [lia|].
        cbn. by rewrite He, Hr.
  - unfold AsyncNode_execAsyncInternal_with.
    by replace (Z.to_nat (maxRetries a)) with 0%nat by lia.
Qed.

(** X8. [AsyncNode.execAsyncInternal] on an [ExecAsync] that panics on the
    argument: [ExecAsync] is called [maxRetries] times, the executor
    sleeps [wait] after each attempt but the last when [wait] is
    positive and never otherwise, the fallback is called once, and its
    value is what the channel delivers. *)
Theorem AsyncNode_execAsyncInternal_exhausted_counts :
  ∀ (execAsync : value → outcome) (fallbackAsync : value → value → value)
    (a : Node) (prepRes r e : value),
    (1 ≤ maxRetries a)%Z →
    execAsync prepRes = Panics r →
    recovered_error r = Some e →
    let out := AsyncNode_execAsyncInternal_with execAsync fallbackAsync a prepRes in
    out.1 = Some (fallbackAsync prepRes e)
    ∧ calls M_ExecAsync out.2 = Z.to_nat (maxRetries a)
    ∧ calls M_ExecFallbackAsync out.2 = 1%nat
    ∧ sleeps out.2
      = (if decide (0 < wait a)
         then replicate (Z.to_nat (maxRetries a) - 1) (wait a)
         else []).
Proof.
  intros execAsync fallbackAsync a prepRes r e Hn He Hr. cbn zeta.
  rewrite (AsyncNode_execAsyncInternal_exhausted _ _ _ _ r e) by done.
  cbn [fst snd]. rewrite !calls_app, !calls_failed_attempts, sleeps_app,
    sleeps_failed_attempts.
  rewrite calls_ExecAsync_failed_attempt, calls_ExecFallbackAsync_failed_attempt.
  repeat split.
  - change (calls M_ExecAsync _) with 1%nat. lia.
  - change (calls M_ExecFallbackAsync _) with 1%nat. lia.
  - change (sleeps _) with (@nil Z). by rewrite app_nil_r.
Qed.

(** X9. [AsyncNode.execAsyncInternal], whatever [ExecAsync] and the policy:
    [ExecAsync] is called at most [maxRetries] times and the fallback
    at most once; with a [maxRetries] that is not positive nothing is
    called and the channel is closed empty, so that the receive yields
    nil. *)
Theorem AsyncNode_execAsyncInternal_bounds :
  ∀ (execAsync : value → outcome) (fallbackAsync : value → value → value)
    (a : Node) (prepRes : value),
    let out := AsyncNode_execAsyncInternal_with execAsync fallbackAsync a prepRes in
    (calls M_ExecAsync out.2 ≤ Z.to_nat (maxRetries a))%nat
    ∧ (calls M_ExecFallbackAsync out.2 ≤ 1)%nat
    ∧ (if decide (0 < maxRetries a)
       then (1 ≤ calls M_ExecAsync out.2)%nat
       else out = (None, []) ∧ chan_recv out.1 = VNil).
Proof.
  intros execAsync fallbackAsync a prepRes. cbn zeta.
  rewrite AsyncNode_execAsyncInternal_with_spec.
  case_decide as Hn; [|by repeat split; cbn; lia].
  destruct (execAsync prepRes) as [v|r].
  { cbn [fst snd]. change (calls M_ExecAsync [_]) with 1%nat.
    change (calls M_ExecFallbackAsync [_]) with 0%nat. lia. }
  destruct (recovered_error r) as [e|].
  2: { cbn [fst snd]. change (calls M_ExecAsync [_]) with 1%nat.
       change (calls M_ExecFallbackAsync [_]) with 0%nat. lia. }
  cbn [fst snd]. rewrite !calls_app, !calls_failed_attempts.
  rewrite calls_ExecAsync_failed_attempt, calls_ExecFallbackAsync_failed_attempt.
  change (calls M_ExecAsync [_; _]) with 1%nat.
  change (calls M_ExecFallbackAsync [_; _]) with 1%nat. lia.
Qed.

(** X10. On an argument on which [Exec] returns, the synchronous and the
    asynchronous executor produce the same value with one call each,
    whatever the fallbacks; with a [maxRetries] that is not positive
    both produce nil without a call. *)
Theorem executors_agree_when_Exec_returns :
  ∀ (exec : value → outcome) (fallback fallbackAsync : value → value → value)
    (n : Node) (prepRes v : value),
    exec prepRes = Returns v →
    let sync := Node_execInternal_with exec fallback n prepRes in
    let async := AsyncNode_execAsyncInternal_with exec fallbackAsync n prepRes in
    chan_recv async.1 = sync.1.2
    ∧ calls M_ExecAsync async.2 = calls M_Exec sync.2.
Proof.
  intros exec fallback fallbackAsync n prepRes v He. cbn zeta.
  rewrite Node_execInternal_with_spec, AsyncNode_execAsyncInternal_with_spec, He.
  by case_decide.
Qed.

(** X11. On an argument on which [Exec] panics with an error, a positive
    [maxRetries] and the default fallbacks, the two executors differ:
    the asynchronous one delivers the error, the synchronous one nil. *)
Theorem executors_differ_when_Exec_panics :
  ∀ (exec : value → outcome) (n : Node) (prepRes : value) (msg : string),
    (1 ≤ maxRetries n)%Z →
    exec prepRes = Panics (VErr msg) →
    (Node_execInternal_with exec Node_ExecFallback n prepRes).1.2 = VNil
    ∧ chan_recv (AsyncNode_execAsyncInternal_with exec
                   AsyncNode_ExecFallbackAsync n prepRes).1 = VErr msg.
Proof.
  intros exec n prepRes msg Hn He.
  rewrite Node_execInternal_with_spec, AsyncNode_execAsyncInternal_with_spec, He.
  rewrite !decide_True by lia. done.
Qed.

(** ** More on the batch executors *)

(** X12. [BatchNode.execInternal] with the [Exec] Go binds: on a list of [k]
    items the result is [k] nils, whatever the items are, and
    [BaseNode.Exec] is entered [k] times when [maxRetries] is positive
    and never otherwise; an input that is not a slice gives the empty
    list and no event. *)
Theorem BatchNode_execInternal_bound :
  ∀ (b : Node) (items : value),
    let out := BatchNode_execInternal b items in
    match assert_slice items with
    | Some itemsSlice =>
        out.1.2 = VList (replicate (length itemsSlice) VNil)
        ∧ calls M_Exec out.2
          = (if decide (0 < maxRetries b)%Z then length itemsSlice else 0%nat)
        ∧ calls M_ExecFallback out.2 = 0%nat
    | None => out = (b, VList [], [])
    end.
Proof.
  intros b items. cbn zeta.
  destruct items as [| | | | |itemsSlice| |]; try reflexivity.
  cbn [assert_slice]. split; [apply BatchNode_execInternal_nils|].
  unfold BatchNode_execInternal.
  destruct (BatchNode_execInternal_with_spec Node_Exec Node_ExecFallback b
              itemsSlice) as [_ ->].
  split.
  - rewrite (calls_concat_fmap _ _ _
               (if decide (0 < maxRetries b)%Z then 1%nat else 0%nat)).
    + case_decide; lia.
    + intros x. rewrite Node_execInternal_with_spec. by case_decide.
  - rewrite (calls_concat_fmap _ _ _ 0%nat); [lia|].
    intros x. rewrite Node_execInternal_with_spec. by case_decide.
Qed.

Lemma AsyncBatchNode_range_spec execAsync fallbackAsync a items :
  ∀ (i : nat) (results : list value),
    length results = (i + length items)%nat →
    let out := AsyncBatchNode_range execAsync fallbackAsync a i items results in
    out.1 = take i results ++ (task_result execAsync fallbackAsync a <$> items)
    ∧ out.2
      = concat ((λ item, (AsyncNode_execAsyncInternal_with execAsync
                            fallbackAsync a item).2) <$> items).
Proof.
  induction items as [|item rest IH]; intros i results Hlen; simpl in *.
  - split; [|done]. rewrite app_nil_r, firstn_all2; [done|lia].
  - destruct (AsyncNode_execAsyncInternal_with execAsync fallbackAsync a item)
      as [sent t1] eqn:E.
    specialize (IH (S i) (<[i := chan_recv sent]> results)).
    rewrite length_insert in IH. specialize (IH ltac:(lia)).
    destruct (AsyncBatchNode_range execAsync fallbackAsync a (S i) rest
                (<[i := chan_recv sent]> results)) as [results' t2].
    simpl in *. destruct IH as [IHr IHt]. split.
    + rewrite IHr.
      rewrite (take_S_r _ _ (chan_recv sent))
        by (apply list_lookup_insert_eq; lia).
      rewrite take_insert_ge by lia.
      rewrite <- app_assoc. simpl. unfold task_result. by rewrite E.
    + by rewrite IHt.
Qed.

Lemma AsyncBatchNode_execAsyncInternal_with_spec :
  ∀ (execAsync : value → outcome) (fallbackAsync : value → value → value)
    (a : Node) (items : value),
    let out := AsyncBatchNode_execAsyncInternal_with execAsync fallbackAsync
                 a items in
    match assert_slice items with
    | Some itemsSlice =>
        out.1 = Some (VList (task_result execAsync fallbackAsync a
                               <$> itemsSlice))
        ∧ out.2
          = concat ((λ item, (AsyncNode_execAsyncInternal_with execAsync
                                fallbackAsync a item).2) <$> itemsSlice)
    | None => out = (Some (VList []), [])
    end.
Proof.
  intros execAsync fallbackAsync a items. cbn zeta.
  destruct items as [| | | | |itemsSlice| |]; try reflexivity.
  cbn [assert_slice AsyncBatchNode_execAsyncInternal_with].
  pose proof (AsyncBatchNode_range_spec execAsync fallbackAsync a itemsSlice 0
                (replicate (length itemsSlice) VNil)) as H.
  rewrite length_replicate in H. specialize (H eq_refl).
  destruct (AsyncBatchNode_range execAsync fallbackAsync a 0 itemsSlice
              (replicate (length itemsSlice) VNil)) as [results t].
  cbn in *. by destruct H as [-> ->].
Qed.

(** X13. [AsyncBatchNode.execAsyncInternal], whatever [ExecAsync] and the
    fallback: the channel always delivers a list; for a list of items it
    has their length, slot [i] is what the retry-wrapped [ExecAsync]
    delivers on item [i], and the events are those of the items in
    order; nil and every input that is not a slice give the empty list
    and no event. *)
Theorem AsyncBatchNode_execAsyncInternal_maps_in_order :
  ∀ (execAsync : value → outcome) (fallbackAsync : value → value → value)
    (a : Node) (items : value),
    let out := AsyncBatchNode_execAsyncInternal_with execAsync fallbackAsync
                 a items in
    match assert_slice items with
    | Some itemsSlice =>
        out.1 = Some (VList (task_result execAsync fallbackAsync a
                               <$> itemsSlice))
        ∧ out.2
          = concat ((λ item, (AsyncNode_execAsyncInternal_with execAsync
                                fallbackAsync a item).2) <$> itemsSlice)
    | None => out = (Some (VList []), [])
    end.
Proof. exact AsyncBatchNode_execAsyncInternal_with_spec. Qed.

(** X14. The sequential and the parallel asynchronous batch executor compute
    the same list: whenever the parallel one publishes (every task over,
    in any order, and the send before the close), the caller receives
    what the sequential one delivers. *)
Theorem AsyncBatchNode_agrees_with_parallel :
  ∀ (execAsync : value → outcome) (fallbackAsync : value → value → value)
    (a : Node) (items : list value) (order : list nat),
    order ≡ₚ seq 0 (length items) →
    ∃ s,
      par_run execAsync fallbackAsync a
        ((StepTask <$> order) ++ [StepCollect; StepOuterReturn; StepReceive])
        (par_start (VList items)) = Some s
      ∧ ps_received s
        = (AsyncBatchNode_execAsyncInternal_with execAsync fallbackAsync a
             (VList items)).1.
Proof.
  intros execAsync fallbackAsync a items order Hperm.
  destruct (par_ordered_when_sent_before_close execAsync fallbackAsync a
              items order Hperm) as (s & Hrun & Hrecv).
  exists s. split; [done|]. rewrite Hrecv.
  pose proof (AsyncBatchNode_execAsyncInternal_with_spec execAsync
                fallbackAsync a (VList items)) as H.
  cbn zeta in H. cbn [assert_slice] in H. by destruct H as [-> _].
Qed.

(** ** The retry loop of the package's retry test *)

Lemma wrap_int_in_range z :
  (- 2 ^ 63 ≤ z < 2 ^ 63)%Z → wrap_int z = z.
Proof.
  intros Hz. unfold wrap_int.
  rewrite Z.mod_small by lia. lia.
Qed.

Lemma retryTestNode_loop_step remaining n prepRes :
  retryTestNode_execInternal_loop (S remaining) n prepRes
  = let n1 := {| rt_node := rt_node n;
                 rt_retryCount := wrap_int (rt_retryCount n + 1);
                 rt_mockErr := rt_mockErr n |} in
    let b := node_base (rt_node n) in
    if decide (curRetry (rt_node n) = maxRetries (rt_node n) - 1)
    then (n1, default VNil (recovered_error (rt_mockErr n)),
          [EvCall M_Exec b; EvCall M_ExecFallback b])
    else
      let next := retryTestNode_execInternal_loop remaining
                    (rt_set_curRetry n1 (curRetry (rt_node n) + 1)) prepRes in
      (next.1.1, next.1.2,
       [EvCall M_Exec b]
       ++ (if decide (0 < wait (rt_node n)) then [EvSleep (wait (rt_node n))]
           else [])
       ++ next.2).
Proof.
  cbn [retryTestNode_execInternal_loop retryTestNode_Exec].
  cbn [rt_node rt_retryCount rt_mockErr]. cbn zeta.
  case_decide; [done|].
  by destruct (retryTestNode_execInternal_loop remaining _ prepRes) as [[? ?] ?].
Qed.

Lemma retryTestNode_loop_spec msg prepRes remaining :
  ∀ (n : retryTestNode),
    rt_mockErr n = VErr msg →
    curRetry (rt_node n) + Z.of_nat (S remaining) = maxRetries (rt_node n) →
    (- 2 ^ 63 ≤ rt_retryCount n)%Z →
    rt_retryCount n + Z.of_nat (S remaining) < 2 ^ 63 →
    let out := retryTestNode_execInternal_loop (S remaining) n prepRes in
    out.1.2 = VErr msg
    ∧ rt_retryCount out.1.1 = rt_retryCount n + Z.of_nat (S remaining)
    ∧ calls M_Exec out.2 = S remaining
    ∧ calls M_ExecFallback out.2 = 1%nat
    ∧ sleeps out.2
      = (if decide (0 < wait (rt_node n))
         then replicate remaining (wait (rt_node n)) else []).
Proof.
  induction remaining as [|k IH]; intros n Herr Hcur Hlo Hhi; cbn zeta;
    rewrite retryTestNode_loop_step; cbn zeta.
  - rewrite decide_True by lia. rewrite Herr. cbn [fst snd default recovered_error
      rt_retryCount].
    rewrite wrap_int_in_range by lia.
    repeat split. by case_decide.
  - rewrite decide_False by lia.
    rewrite wrap_int_in_range by lia.
    set (n1 := rt_set_curRetry _ _).
    specialize (IH n1). cbn zeta in IH.
    subst n1. cbn [rt_set_curRetry rt_node rt_retryCount rt_mockErr
                   set_curRetry curRetry maxRetries wait] in IH.
    destruct IH as (Hres & Hcount & Hexec & Hfb & Hsleep); [done|lia..|].
    cbn [fst snd]. repeat split.
    + done.
    + rewrite Hcount. lia.
    + rewrite !calls_app, Hexec.
      change (calls M_Exec [EvCall M_Exec _]) with 1%nat.
      case_decide; [change (calls M_Exec [EvSleep _]) with 0%nat
                   |change (calls M_Exec []) with 0%nat]; lia.
    + rewrite !calls_app, Hfb.
      change (calls M_ExecFallback [EvCall M_Exec _]) with 0%nat.
      case_decide; [change (calls M_ExecFallback [EvSleep _]) with 0%nat
                   |change (calls M_ExecFallback []) with 0%nat]; lia.
    + rewrite !sleeps_app, Hsleep. by case_decide.
Qed.

(** X15. The retry loop the package's retry test runs in place of
    [Node.execInternal], on a node whose [Exec] panics with a non-nil
    error: with a positive [maxRetries] (and a counter that does not
    overflow) [Exec] is called [maxRetries] times, the counter behind
    [retryCount] grows by [maxRetries], the loop sleeps between
    attempts when [wait] is positive, the fallback is called once and
    the result is the error. *)
Theorem retryTestNode_execInternal_retries :
  ∀ (n : retryTestNode) (prepRes : value) (msg : string),
    rt_mockErr n = VErr msg →
    (1 ≤ maxRetries (rt_node n))%Z →
    (- 2 ^ 63 ≤ rt_retryCount n)%Z →
    rt_retryCount n + maxRetries (rt_node n) < 2 ^ 63 →
    let out := retryTestNode_execInternal n prepRes in
    out.1.2 = VErr msg
    ∧ rt_retryCount out.1.1 = rt_retryCount n + maxRetries (rt_node n)
    ∧ calls M_Exec out.2 = Z.to_nat (maxRetries (rt_node n))
    ∧ calls M_ExecFallback out.2 = 1%nat
    ∧ sleeps out.2
      = (if decide (0 < wait (rt_node n))
         then replicate (Z.to_nat (maxRetries (rt_node n)) - 1)
                (wait (rt_node n))
         else []).
Proof.
  intros n prepRes msg Herr Hn Hlo Hhi. cbn zeta.
  unfold retryTestNode_execInternal.
  destruct (Z.to_nat (maxRetries (rt_node n))) as [|k] eqn:Hk; [lia|].
  pose proof (retryTestNode_loop_spec msg prepRes k (rt_set_curRetry n 0)) as H.
  cbn zeta in H.
  cbn [rt_set_curRetry rt_node rt_retryCount rt_mockErr set_curRetry
       curRetry maxRetries wait] in H.
  destruct H as (Hres & Hcount & Hexec & Hfb & Hsleep); [done|lia..|].
  repeat split; try done.
  - rewrite Hcount. lia.
  - rewrite Hsleep. by replace (S k - 1)%nat with k by lia.
Qed.

(** ** More on the synchronous flow *)

Lemma BaseNode_SetParams_result c ps s :
  BaseNode_SetParams c ps s
  = (tt,
     {| st_heap := <[c := {| params := ps;
                             successors := successors (st_heap s !!! c) |}]>
                     (st_heap s);
        st_shared := st_shared s; st_trace := st_trace s |}).
Proof. reflexivity. Qed.

Lemma BaseNode_runInternal_result c s :
  BaseNode_runInternal c s
  = (VNil,
     {| st_heap := st_heap s; st_shared := st_shared s;
        st_trace := st_trace s ++ [EvCall M_Prep c; EvCall M_Exec c;
                                   EvCall M_Post c] |}).
Proof.
  unfold BaseNode_runInternal, BaseNode_Prep, BaseNode_execInternal,
    BaseNode_Exec, BaseNode_Post. unfold_M. cbn.
  by rewrite <- !app_assoc.
Qed.



(** X17. A flow over plain [BaseNode]s that are wired under "<nil>" into a
    cycle (more generally: inside a set of nodes each of which has a
    [*BaseNode] successor under "<nil>" in the set) never ends: the
    loop of [orchestrate] runs out of every amount of fuel. *)
Theorem Flow_orchestrate_loop_diverges_on_nil_cycle :
  ∀ (inside : addr → Prop) (fuel : nat) (c : addr)
    (ps : gmap string value) (last : value) (s : state),
    (∀ a, inside a →
          ∃ a', inside a'
                ∧ successors (st_heap s !!! a) !! "<nil>"
                  = Some (VPtr T_BaseNode (Some a'))) →
    inside c →
    (Flow_orchestrate_loop BaseNode_runInternal fuel (Some c) ps last s).1
    = None.
Proof.
  intros inside fuel. induction fuel as [|fuel IH];
    intros c ps last s Hcycle Hc; [done|].
  rewrite Flow_orchestrate_loop_step.
  rewrite BaseNode_SetParams_result. cbn [snd].
  rewrite BaseNode_runInternal_result.
  set (s2 := {| st_heap := _; st_shared := _; st_trace := _ |}).
  assert (Hsucc2 : ∀ a, successors (st_heap s2 !!! a)
                        = successors (st_heap s !!! a)).
  { intros a. subst s2. cbn.
    destruct (decide (a = c)) as [->|Hne].
    - by rewrite lookup_total_insert_eq.
    - by rewrite lookup_total_insert_ne. }
  pose proof (Flow_GetNextNode_frame c (Sprintf_v VNil) s2) as Hget.
  pose proof (Flow_GetNextNode_value c (Sprintf_v VNil) s2) as Hval.
  cbn zeta in Hget.
  destruct (Flow_GetNextNode c (Sprintf_v VNil) s2) as [nextNode s3].
  cbn [fst snd] in *. destruct Hget as (Hh3 & _ & _).
  destruct (Hcycle c Hc) as (c' & Hc' & Hnext).
  rewrite Hsucc2 in Hval. change (normalize_action (Sprintf_v VNil))
    with "<nil>" in Hval. rewrite Hnext in Hval. cbn in Hval. subst nextNode.
  cbn [assert_ptr]. rewrite decide_True by done.
  apply IH; [|done].
  intros a Ha. destruct (Hcycle a Ha) as (a' & Ha' & Hnext').
  exists a'. split; [done|]. by rewrite Hh3, Hsucc2.
Qed.

(** ** More on the batch flows *)

(** X18. Entries of the override list that are not maps are skipped: the
    loop of [BatchFlow.runInternal] does on a list what it does on the
    list of its maps. *)
Theorem BatchFlow_range_skips_non_maps :
  ∀ (run : addr → M value) (fuel : nat) (b : Flow) (prepSlice : list value)
    (s : state),
    BatchFlow_range run fuel b prepSlice s
    = BatchFlow_range run fuel b
        (filter (λ bp, is_Some (assert_map bp)) prepSlice) s.
Proof.
  intros run fuel b prepSlice. induction prepSlice as [|bp rest IH]; intros s;
    [done|].
  destruct (assert_map bp) as [bpMap|] eqn:E.
  - rewrite filter_cons_True by (rewrite E; eauto).
    cbn [BatchFlow_range]. rewrite E. unfold bind, get_node.
    destruct (Flow_orchestrate_with _ _ _ _ _) as [[?|] s']; [apply IH|done].
  - rewrite filter_cons_False by (rewrite E; by intros [? ?]).
    cbn [BatchFlow_range]. rewrite E. apply IH.
Qed.

(** The loop of the asynchronous batch flow is the loop of the
    synchronous one. *)
Lemma AsyncBatchFlow_range_is_BatchFlow_range run runAsync fuel a prepSlice :
  ∀ s, AsyncBatchFlow_range run runAsync fuel a prepSlice s
       = BatchFlow_range run fuel a prepSlice s.
Proof.
  induction prepSlice as [|bp rest IH]; intros s; [done|].
  cbn [AsyncBatchFlow_range BatchFlow_range].
  destruct (assert_map bp) as [bpMap|]; [|apply IH].
  unfold bind, get_node. rewrite AsyncFlow_orchestrateAsync_with_is_sync.
  destruct (Flow_orchestrate_with _ _ _ _ _) as [[?|] s']; [apply IH|done].
Qed.

(** X19. [AsyncBatchFlow.runAsyncInternal] delivers what
    [BatchFlow.runInternal] returns and leaves the same state, whatever
    Prep, Post and the nodes do: no asynchronous lifecycle is ever
    started by it. *)
Theorem AsyncBatchFlow_is_BatchFlow :
  ∀ (prep : M value) (post : value → value → M value)
    (run runAsync : addr → M value) (fuel : nat) (a : Flow) (s : state),
    AsyncBatchFlow_runAsyncInternal_with prep post run runAsync fuel a s
    = BatchFlow_runInternal_with prep post run fuel a s.
Proof.
  intros prep post run runAsync fuel a s.
  unfold AsyncBatchFlow_runAsyncInternal_with, BatchFlow_runInternal_with.
  unfold bind. destruct (prep s) as [prepRes s1].
  by rewrite AsyncBatchFlow_range_is_BatchFlow_range.
Qed.

Lemma AsyncFlow_runAsyncInternal_unfold async_node_at fuel a s :
  AsyncFlow_runAsyncInternal async_node_at fuel a s
  = match Flow_orchestrate fuel (af_flow a) None
            (AsyncNode_PrepAsync (af_async a) s).2 with
    | (Some orchRes, s2) =>
        (Some orchRes,
         {| st_heap := st_heap s2; st_shared := st_shared s2;
            st_trace := st_trace s2
                        ++ [EvCall M_PostAsync (flow_base (af_flow a))] |})
    | (None, s2) => (None, s2)
    end.
Proof.
  unfold AsyncFlow_runAsyncInternal, AsyncFlow_orchestrateAsync.
  unfold bind at 1.
  destruct (AsyncNode_PrepAsync (af_async a) s) as [prepRes s1]. cbn [snd].
  unfold bind at 1. rewrite AsyncFlow_orchestrateAsync_with_is_sync.
  unfold Flow_orchestrate.
  by destruct (Flow_orchestrate_with BaseNode_runInternal fuel (af_flow a)
                 None s1) as [[orchRes|] s2].
Qed.

(** X20. [AsyncFlow.runAsyncInternal] delivers what the synchronous
    [orchestrate] returns on the state [PrepAsync] left, and adds one
    [PostAsync] event to what [orchestrate] did. *)
Theorem AsyncFlow_runAsyncInternal_is_orchestrate :
  ∀ (async_node_at : addr → Node) (fuel : nat) (a : AsyncFlow) (s : state),
    let s1 := (AsyncNode_PrepAsync (af_async a) s).2 in
    let orch := Flow_orchestrate fuel (af_flow a) None s1 in
    let out := AsyncFlow_runAsyncInternal async_node_at fuel a s in
    out.1 = orch.1
    ∧ st_heap out.2 = st_heap orch.2
    ∧ st_shared out.2 = st_shared orch.2
    ∧ st_trace out.2
      = st_trace orch.2
        ++ match orch.1 with
           | Some _ => [EvCall M_PostAsync (flow_base (af_flow a))]
           | None => []
           end.
Proof.
  intros async_node_at fuel a s. cbn zeta.
  rewrite AsyncFlow_runAsyncInternal_unfold.
  destruct (Flow_orchestrate fuel (af_flow a) None
              (AsyncNode_PrepAsync (af_async a) s).2) as [[orchRes|] s2]; cbn.
  - done.
  - by rewrite app_nil_r.
Qed.

(** ** The parallel batch executor under every schedule *)

Lemma par_inv_start execAsync fallbackAsync a items :
  par_inv execAsync fallbackAsync a items (par_start (VList items)).
Proof.
  destruct (tasks_finished_start execAsync fallbackAsync a items)
    as (Hnd & Hlt & Hres & Hout & Hcoll & Hrecv & Hwg & Htasks & Hchans).
  exists []. rewrite Hcoll, Hres, Hout, Hrecv. cbn [ch_closed ch_buf make_chan].
  repeat split; auto.
Qed.

Lemma par_inv_room (items : list value) (finished : list nat) (idx : nat) :
  NoDup finished →
  (∀ i, i ∈ finished → (i < length items)%nat) →
  (idx < length items)%nat →
  idx ∉ finished →
  (S (length finished) ≤ length items)%nat.
Proof.
  intros Hnd Hlt Hidx Hnew.
  change (S (length finished)) with (length (idx :: finished)).
  rewrite <- (length_seq (length items) 0). apply submseteq_length.
  apply NoDup_submseteq; [by apply NoDup_cons|].
  intros i [->|Hi]%elem_of_cons; apply elem_of_seq; [lia|].
  specialize (Hlt i Hi). lia.
Qed.

Lemma collect_results_all_finished execAsync fallbackAsync a
    (items : list value) (finished : list nat) :
  NoDup finished →
  (∀ i, i ∈ finished → (i < length items)%nat) →
  length finished = length items →
  collect_results
    (imap (λ i item,
             if decide (i ∈ finished)
             then {| ch_buf := Some (task_result execAsync fallbackAsync a item);
                     ch_closed := false |}
             else make_chan) items)
  = Some (task_result execAsync fallbackAsync a <$> items).
Proof.
  intros Hnd Hlt Hlen.
  assert (Hall : ∀ i, (i < length items)%nat → i ∈ finished).
  { intros i Hi. destruct (decide (i ∈ finished)) as [|Hnot]; [done|].
    pose proof (par_inv_room items finished i Hnd Hlt Hi Hnot). lia. }
  unfold collect_results. apply mapM_Some.
  apply Forall2_same_length_lookup. split.
  - by rewrite length_imap, length_fmap.
  - intros i ch v Hch Hv. rewrite list_lookup_imap in Hch.
    rewrite list_lookup_fmap in Hv.
    destruct (items !! i) as [item|] eqn:E; [|done].
    cbn in *. rewrite decide_True in Hch.
    + by simplify_eq.
    + apply Hall. by eapply lookup_lt_Some.
Qed.

Lemma par_inv_step execAsync fallbackAsync a items st s s' :
  par_inv execAsync fallbackAsync a items s →
  par_step execAsync fallbackAsync a st s = Some s' →
  par_inv execAsync fallbackAsync a items s'.
Proof.
  intros (finished & Hnd & Hlt & Hwg & Htasks & Hclosed & Hcoll) Hstep.
  destruct st as [|idx| |]; cbn [par_step] in Hstep.
  - (* the outer goroutine returns *)
    destruct (ps_outer_returned s) eqn:Hout; [done|]. simplify_eq.
    exists finished. cbn. repeat split; auto.
    destruct (ps_collector s); auto.
    + destruct Hcoll as (? & ? & [?|[? ?]]); [auto|congruence].
    + destruct Hcoll as (? & ? & ?). auto.
    + destruct Hcoll as (? & ? & ?). congruence.
  - (* a task finishes *)
    rewrite Htasks, list_lookup_imap in Hstep.
    destruct (items !! idx) as [item|] eqn:Hitem; [|done].
    cbn [fmap option_fmap option_map] in Hstep.
    destruct (decide (idx ∈ finished)) as [|Hnew]; [done|].
    destruct (AsyncNode_execAsyncInternal_with execAsync fallbackAsync a item)
      as [sent t] eqn:E.
    simplify_eq.
    assert (Hidx : (idx < length items)%nat) by by eapply lookup_lt_Some.
    pose proof (par_inv_room items finished idx Hnd Hlt Hidx Hnew) as Hroom.
    exists (idx :: finished). cbn. repeat split; auto.
    + by apply NoDup_cons.
    + intros i [->|Hi]%elem_of_cons; auto.
    + lia.
    + rewrite <- Htasks.
      rewrite Htasks. apply (insert_imap _ _ items idx item None Hitem).
      * rewrite decide_True; [done|by left].
      * intros i y Hne. destruct (decide (i ∈ finished)).
        -- rewrite decide_True; [done|by right].
        -- rewrite decide_False; [done|by intros [?|?]%elem_of_cons].
    + destruct (ps_collector s); auto.
      * destruct Hcoll as (Hchans & ? & ?). split; [|done].
        rewrite Hchans. apply (insert_imap _ _ items idx item _ Hitem).
        -- rewrite decide_True by by left. unfold task_result. by rewrite E.
        -- intros i y Hne. destruct (decide (i ∈ finished)).
           ++ rewrite decide_True; [done|by right].
           ++ rewrite decide_False; [done|by intros [?|?]%elem_of_cons].
      * destruct Hcoll as (? & ?). lia.
      * destruct Hcoll as (? & ?). lia.
  - (* the collector *)
    destruct (ps_collector s) eqn:Hc; try done.
    destruct (ps_wg s) eqn:Hw; [|done].
    destruct Hcoll as (Hchans & Hbuf & Hrecv).
    rewrite Hchans in Hstep.
    rewrite (collect_results_all_finished _ _ _ _ finished) in Hstep
      by (auto; lia).
    destruct (ch_closed (ps_result s)) eqn:Hcl.
    + simplify_eq. exists finished. cbn.
      repeat split; auto; try congruence.
      destruct Hrecv as [?|[? ?]]; auto.
    + rewrite Hbuf in Hstep. simplify_eq. exists finished. cbn.
      repeat split; auto; try congruence. left. split; [done|].
      destruct Hrecv as [?|[? ?]]; [done|congruence].
  - (* the caller's receive *)
    destruct (ps_received s) eqn:Hr; [done|].
    destruct (ch_buf (ps_result s)) as [v|] eqn:Hbuf.
    + simplify_eq. exists finished. cbn. repeat split; auto.
      destruct (ps_collector s); auto.
      * destruct Hcoll as (? & ? & ?). congruence.
      * destruct Hcoll as (? & ? & [[? ?]|[? ?]]); [|congruence].
        repeat split; auto; try (right; split; [done|congruence]).
      * destruct Hcoll as (? & ? & ? & ?). congruence.
    + destruct (ch_closed (ps_result s)) eqn:Hcl; [|done]. simplify_eq.
      exists finished. cbn. rewrite Hbuf, Hcl. repeat split; auto.
      destruct (ps_collector s); auto.
      * destruct Hcoll as (? & ? & ?). auto.
      * destruct Hcoll as (? & ? & [[? ?]|[? ?]]); congruence.
      * destruct Hcoll as (? & ? & ? & ?). auto.
Qed.

Lemma par_inv_run execAsync fallbackAsync a items sched :
  ∀ s s',
    par_inv execAsync fallbackAsync a items s →
    par_run execAsync fallbackAsync a sched s = Some s' →
    par_inv execAsync fallbackAsync a items s'.
Proof.
  induction sched as [|st sched IH]; intros s s' Hinv Hrun; cbn in Hrun.
  - by simplify_eq.
  - destruct (par_step execAsync fallbackAsync a st s) as [s1|] eqn:E; [|done].
    eapply IH; [|done]. by eapply par_inv_step.
Qed.

(** X21. Under every schedule of the goroutines of the parallel batch
    executor on a slice: what the caller receives is either nil, taken
    from the channel the outer goroutine closed, or the complete list
    with slot [i] computed from item [i]; the list is received only when
    every task is over, and after a nil it is never published. *)
Theorem par_received_nil_or_complete :
  ∀ (execAsync : value → outcome) (fallbackAsync : value → value → value)
    (a : Node) (items : list value) (sched : list pstep) (s : pstate)
    (v : value),
    par_run execAsync fallbackAsync a sched (par_start (VList items)) = Some s →
    ps_received s = Some v →
    (v = VNil ∧ ps_collector s ≠ CollSent
     ∧ ch_closed (ps_result s) = true)
    ∨ (v = VList (task_result execAsync fallbackAsync a <$> items)
       ∧ ps_wg s = 0%nat
       ∧ ps_collector s = CollSent
       ∧ ps_tasks s = replicate (length items) None).
Proof.
  intros execAsync fallbackAsync a items sched s v Hrun Hrecv.
  pose proof (par_inv_run _ _ _ _ _ _ _
                (par_inv_start execAsync fallbackAsync a items) Hrun)
    as (finished & Hnd & Hlt & Hwg & Htasks & Hclosed & Hcoll).
  destruct (ps_collector s) eqn:Hc; [done|..].
  - destruct Hcoll as (_ & _ & [?|[? ?]]); [congruence|].
    left. by simplify_eq.
  - destruct Hcoll as (Hw & _ & [[? ?]|[? ?]]); [congruence|].
    right. simplify_eq. repeat split; auto.
    rewrite Htasks. apply list_eq. intros i.
    rewrite list_lookup_imap.
    destruct (items !! i) as [item|] eqn:E; cbn.
    + assert (Hi : (i < length items)%nat) by by eapply lookup_lt_Some.
      rewrite lookup_replicate_2 by done.
      destruct (decide (i ∈ finished)) as [|Hnot]; [done|].
      pose proof (par_inv_room items finished i Hnd Hlt Hi Hnot). lia.
    + symmetry. apply lookup_ge_None. rewrite length_replicate.
      by apply lookup_ge_None.
  - destruct Hcoll as (_ & ? & _ & [?|?]); [congruence|].
    left. by simplify_eq.
Qed.

Lemma par_inv_no_slice_step execAsync fallbackAsync a st s s' :
  par_inv_no_slice s →
  par_step execAsync fallbackAsync a st s = Some s' →
  par_inv_no_slice s'.
Proof.
  intros (Hcoll & Htasks & Hres) Hstep.
  destruct st as [|idx| |]; cbn [par_step] in Hstep.
  - destruct (ps_outer_returned s); [done|]. by simplify_eq.
  - by rewrite Htasks in Hstep.
  - by rewrite Hcoll in Hstep.
  - destruct (ps_received s) eqn:Hr; [done|].
    destruct Hres as [[Hbuf _]|[_ ?]]; [|congruence].
    rewrite Hbuf in Hstep. simplify_eq. repeat split; auto.
Qed.

(** X22. On an input that is nil or not a slice the caller receives the
    empty list under every schedule, also when [result] was closed
    first: the value sent before the close is still delivered. *)
Theorem par_no_slice_receives_empty_list :
  ∀ (execAsync : value → outcome) (fallbackAsync : value → value → value)
    (a : Node) (items : value) (sched : list pstep) (s : pstate) (v : value),
    assert_slice items = None →
    par_run execAsync fallbackAsync a sched (par_start items) = Some s →
    ps_received s = Some v →
    v = VList [].
Proof.
  intros execAsync fallbackAsync a items sched s v Hitems Hrun Hrecv.
  assert (Hinv : par_inv_no_slice s).
  { assert (H0 : par_inv_no_slice (par_start items)).
    { unfold par_start. rewrite Hitems. repeat split; auto. }
    clear Hrecv. revert Hrun H0. generalize (par_start items).
    induction sched as [|st sched IH]; intros s0 Hrun H0; cbn in Hrun.
    - by simplify_eq.
    - destruct (par_step execAsync fallbackAsync a st s0) as [s1|] eqn:E;
        [|done].
      eapply IH; [done|]. by eapply par_inv_no_slice_step. }
  destruct Hinv as (_ & _ & [[_ ?]|[_ ?]]); congruence.
Qed.

(** * The research-agent example *)

(** X23. [DecideAction.Post] hands on, as the action, whatever string the
    decision carries under "action" (the empty string when there is
    none), without restricting it to "search", "answer" or "error".  It
    writes one key: "error" for the action "error", "search_query" for
    "search", and for every other action, known or not, it replaces
    "context" by the decision's answer.  When the exec result is not a
    map the store is left alone and the action is "error". *)
Theorem DecideAction_Post_returns_the_decided_action :
  ∀ (shared : gmap string value) (prepRes execRes : value),
    let out := DecideAction_Post shared prepRes execRes in
    match assert_map execRes with
    | None => out.1.1 = shared ∧ out.1.2 = VStr "error"
    | Some decision =>
        let action := default "" (lookup_string decision "action") in
        out.1.2 = VStr action
        ∧ out.1.1
          = (if decide (action = "error")
             then <["error" := VStr (default "" (lookup_string decision "reason"))]>
                    shared
             else if decide (action = "search")
             then <["search_query" :=
                      VStr (default "" (lookup_string decision "search_query"))]>
                    shared
             else <["context" :=
                      VStr (default "" (lookup_string decision "answer"))]>
                    shared)
    end
    ∧ (∀ k, k ≠ "error" → k ≠ "search_query" → k ≠ "context" →
            out.1.1 !! k = shared !! k).
Proof.
  intros shared prepRes execRes. cbn zeta. unfold DecideAction_Post.
  destruct (assert_map execRes) as [decision|]; [|done].
  repeat case_decide; subst; cbn; (split; [by rewrite ?H|]);
    intros k ? ? ?; by rewrite lookup_insert_ne.
Qed.

(** X24. The lifecycle of the search node always ends with the action
    "decide": its [Exec] returns a string on every path, so the branch
    of its [Post] that reports an error is never taken.  The lifecycle
    writes the key "context" only, and the new context is the previous
    one (the empty string when it was absent or not a string) with the
    search appended. *)
Theorem SearchWebNode_lifecycle_always_decides :
  ∀ (shared : gmap string value),
    let out := SearchWebNode_lifecycle shared in
    out.1.2 = VStr "decide"
    ∧ (∀ k, k ≠ "context" → out.1.1 !! k = shared !! k)
    ∧ (∃ appended,
          out.1.1 !! "context"
          = Some (VStr (default "" (lookup_string shared "context")
                        ++ appended)%string))
    ∧ Print_found_information ∈ out.2.
Proof.
  intros shared. cbn zeta. unfold SearchWebNode_lifecycle.
  destruct (SearchWebNode_Prep shared) as [prepRes l1] eqn:Hprep.
  assert (∃ results l2, SearchWebNode_Exec prepRes = (VStr results, l2))
    as (results & l2 & ->).
  { unfold SearchWebNode_Exec.
    destruct prepRes; eauto. repeat case_decide; eauto. }
  cbn [SearchWebNode_Post fst snd]. repeat split.
  - intros k Hk. by rewrite lookup_insert_ne.
  - eexists. by rewrite lookup_insert_eq.
  - rewrite !elem_of_app. right. right. by left.
Qed.

(** X25. [AnswerQuestion.Post] returns "done" exactly when the exec result
    is a string that is not empty, and then stores it under "answer"
    and writes nothing else; in every other case it returns "error" and
    writes both "answer" and "error". *)
Theorem AnswerQuestion_Post_done_iff_answer :
  ∀ (shared : gmap string value) (prepRes execRes : value),
    let out := AnswerQuestion_Post shared prepRes execRes in
    (out.1.2 = VStr "done" ↔ ∃ answer, execRes = VStr answer ∧ answer ≠ "")
    ∧ (out.1.2 = VStr "done" → out.1.1 = <["answer" := execRes]> shared)
    ∧ (out.1.2 ≠ VStr "done" →
       out.1.2 = VStr "error"
       ∧ is_Some (out.1.1 !! "error")
       ∧ is_Some (out.1.1 !! "answer"))
    ∧ (∀ k, k ≠ "error" → k ≠ "answer" → out.1.1 !! k = shared !! k).
Proof.
  intros shared prepRes execRes. cbn zeta. unfold AnswerQuestion_Post.
  assert (Hfailed :
    ∀ o : gmap string value * value * list example_line,
      o = (<["error" := VStr "Answer generation failed or produced empty result."]>
             (<["answer" := VStr ("Failed to generate final answer. Error: "
                                  ++ Sprintf_v execRes)%string]> shared),
           VStr "error",
           [Log_AnswerQuestion_Post_invalid (Sprintf_v execRes)]) →
      (¬ ∃ answer, execRes = VStr answer ∧ answer ≠ "") →
      (o.1.2 = VStr "done" ↔ ∃ answer, execRes = VStr answer ∧ answer ≠ "")
      ∧ (o.1.2 = VStr "done" → o.1.1 = <["answer" := execRes]> shared)
      ∧ (o.1.2 ≠ VStr "done" →
         o.1.2 = VStr "error"
         ∧ is_Some (o.1.1 !! "error")
         ∧ is_Some (o.1.1 !! "answer"))
      ∧ (∀ k, k ≠ "error" → k ≠ "answer" → o.1.1 !! k = shared !! k)).
  { intros o -> Hno. cbn [fst snd]. split; [split; [done|by intros ?]|].
    split; [done|]. split.
    - intros _. split; [done|]. split.
      + rewrite lookup_insert_eq. eauto.
      + rewrite lookup_insert_ne, lookup_insert_eq by done. eauto.
    - intros k ? ?. by rewrite !lookup_insert_ne. }
  destruct execRes as [| | |answer| | | |];
    try (apply Hfailed; [done|by intros (? & ? & ?)]).
  case_decide as Hempty.
  - apply Hfailed; [done|]. intros (? & ? & ?). by simplify_eq.
  - cbn [fst snd]. split; [split; [eauto|done]|].
    split; [done|]. split; [done|].
    intros k ? ?. by rewrite lookup_insert_ne.
Qed.

(** X26. The [Prep] of the three nodes never fails: [DecideAction.Prep] and
    [AnswerQuestion.Prep] return a list of exactly two strings, the
    question and the context, whatever the store holds, which is the
    shape their [Exec] checks for; [SearchWebNode.Prep] returns a
    string.  A context that is absent or not a string reads as "No
    previous search" for the decision and as the empty string for the
    answer. *)
Theorem example_Prep_shapes :
  ∀ (shared : gmap string value),
    (∃ question contextStr,
        (DecideAction_Prep shared).1 = VList [VStr question; VStr contextStr]
        ∧ contextStr = default "No previous search" (lookup_string shared "context")
        ∧ question = default "" (lookup_string shared "question"))
    ∧ (∃ question contextStr,
          (AnswerQuestion_Prep shared).1 = VList [VStr question; VStr contextStr]
          ∧ contextStr = default "" (lookup_string shared "context")
          ∧ question = default "" (lookup_string shared "question"))
    ∧ (SearchWebNode_Prep shared).1
      = VStr (default "" (lookup_string shared "search_query")).
Proof.
  intros shared. unfold DecideAction_Prep, AnswerQuestion_Prep, SearchWebNode_Prep.
  destruct (lookup_string shared "question") as [q|];
    destruct (lookup_string shared "context") as [c|];
    destruct (lookup_string shared "search_query") as [sq|];
    repeat case_decide; subst; cbn;
    (split; [|split]); try (do 2 eexists; by repeat split); done.
Qed.

(** X27. The graph [CreateResearchAgent] builds, on distinct addresses: the
    decision node leads to the search node under "search" and to the
    answer node under "answer", the search node leads back under
    "decide", and nothing else is registered, so that "error", "done"
    and the empty action end a flow at any node; the answer node and
    the flow itself have no successor.  Wiring logs no overwrite. *)
Theorem CreateResearchAgent_graph :
  ∀ (f d w q : addr) (s : state),
    NoDup [f; d; w; q] →
    let out := CreateResearchAgent f d w q s in
    let h := st_heap out.2 in
    out.1 = NewFlow f (VPtr (T_Custom "DecideAction") (Some d))
    ∧ successors (h !!! d)
      = <["answer" := VPtr (T_Custom "AnswerQuestion") (Some q)]>
          (<["search" := VPtr (T_Custom "SearchWebNode") (Some w)]> ∅)
    ∧ successors (h !!! w)
      = <["decide" := VPtr (T_Custom "DecideAction") (Some d)]> ∅
    ∧ successors (h !!! q) = ∅
    ∧ successors (h !!! f) = ∅
    ∧ st_trace out.2 = st_trace s
    ∧ st_shared out.2 = st_shared s
    ∧ (∀ action, (Flow_GetNextNode q action out.2).1 = VNil)
    ∧ (Flow_GetNextNode d "error" out.2).1 = VNil
    ∧ (Flow_GetNextNode d "" out.2).1 = VNil
    ∧ (Flow_GetNextNode w "decide" out.2).1
      = VPtr (T_Custom "DecideAction") (Some d).
Proof.
  intros f d w q s Hnd. cbn zeta.
  apply NoDup_cons in Hnd as [Hf Hnd]. apply NoDup_cons in Hnd as [Hd Hnd].
  apply NoDup_cons in Hnd as [Hw _].
  apply not_elem_of_cons in Hf as (Hfd & Hf).
  apply not_elem_of_cons in Hf as (Hfw & Hf).
  apply not_elem_of_cons in Hf as (Hfq & _).
  apply not_elem_of_cons in Hd as (Hdw & Hd).
  apply not_elem_of_cons in Hd as (Hdq & _).
  apply not_elem_of_cons in Hw as (Hwq & _).
  assert (Hout : ∃ h,
    CreateResearchAgent f d w q s
    = (NewFlow f (VPtr (T_Custom "DecideAction") (Some d)),
       {| st_heap := h; st_shared := st_shared s; st_trace := st_trace s |})
    ∧ h !!! d
      = {| params := ∅;
           successors :=
             <["answer" := VPtr (T_Custom "AnswerQuestion") (Some q)]>
               (<["search" := VPtr (T_Custom "SearchWebNode") (Some w)]> ∅) |}
    ∧ h !!! w
      = {| params := ∅;
           successors :=
             <["decide" := VPtr (T_Custom "DecideAction") (Some d)]> ∅ |}
    ∧ h !!! q = NewBaseNode
    ∧ h !!! f = NewBaseNode).
  { unfold CreateResearchAgent.
    unfold bind at 1. cbn [put_node]. unfold bind at 1. cbn [put_node].
    unfold bind at 1. cbn [put_node]. unfold bind at 1. cbn [put_node].
    unfold bind at 1. rewrite BaseNode_Next_result.
    unfold bind at 1. rewrite BaseNode_Next_result.
    unfold bind at 1. rewrite BaseNode_Next_result.
    cbn [st_heap st_shared st_trace ret].
    repeat (rewrite ?lookup_total_insert_eq;
            rewrite ?lookup_total_insert_ne by done).
    cbn [successors params NewBaseNode].
    change (normalize_action "search") with "search".
    change (normalize_action "answer") with "answer".
    change (normalize_action "decide") with "decide".
    rewrite lookup_empty, lookup_insert_ne, lookup_empty by done.
    rewrite !app_nil_r.
    eexists. split; [reflexivity|].
    repeat (rewrite ?lookup_total_insert_eq;
            rewrite ?lookup_total_insert_ne by done).
    done. }
  destruct Hout as (h & -> & Hhd & Hhw & Hhq & Hhf).
  cbn [fst snd st_heap st_trace st_shared].
  rewrite !Flow_GetNextNode_value. cbn [st_heap].
  rewrite Hhd, Hhw, Hhq, Hhf. cbn [successors NewBaseNode].
  repeat split; try done.
  intros action. rewrite Flow_GetNextNode_value. cbn [st_heap].
  by rewrite Hhq.
Qed.

(** X28. Once the language-model client is set up, [RunResearchAgent]
    returns "Agent finished, but no answer was generated." for every
    question: the exported [Run] of the flow runs the no-op lifecycle of
    the flow's own [BaseNode], no method of the three nodes is entered,
    and the store still holds exactly the three keys it was made
    with. *)
Theorem RunResearchAgent_never_answers :
  ∀ (question : string) (model ctx : value) (f d w q : addr) (s : state),
    let out := RunResearchAgent_after_init question model ctx f d w q s in
    out.1 = ("Agent finished, but no answer was generated.",
             [Log_RunResearchAgent_no_answer])
    ∧ st_shared out.2
      = <["question" := VStr question]>
          (<["llmModel" := model]> (<["llmCtx" := ctx]> ∅))
    ∧ ∃ t, st_trace out.2 = st_trace s ++ t
           ∧ ∀ m a, EvCall m a ∈ t → a = f.
Proof.
  intros question model ctx f d w q s out.
  assert (H : ∃ s',
    out = (("Agent finished, but no answer was generated.",
            [Log_RunResearchAgent_no_answer]), s')
    ∧ st_shared s'
      = <["question" := VStr question]>
          (<["llmModel" := model]> (<["llmCtx" := ctx]> ∅))
    ∧ ∃ t, st_trace s' = st_trace s ++ t
           ∧ ∀ m a, EvCall m a ∈ t → a = f).
  { subst out. unfold RunResearchAgent_after_init.
    unfold bind at 1.
    destruct (CreateResearchAgent f d w q s) as [flow s1] eqn:Hcreate.
    assert (Hflow : flow_base flow = f ∧ ∃ t1, st_trace s1 = st_trace s ++ t1
              ∧ ∀ m a, EvCall m a ∈ t1 → a = f).
    { revert Hcreate. unfold CreateResearchAgent.
      unfold bind at 1. cbn [put_node]. unfold bind at 1. cbn [put_node].
      unfold bind at 1. cbn [put_node]. unfold bind at 1. cbn [put_node].
      unfold bind at 1. rewrite BaseNode_Next_result.
      unfold bind at 1. rewrite BaseNode_Next_result.
      unfold bind at 1. rewrite BaseNode_Next_result.
      cbn [st_heap st_shared st_trace ret]. intros [= <- <-].
      split; [done|]. cbn [st_trace]. eexists. split.
      - rewrite <- !app_assoc. reflexivity.
      - intros m a Ha.
        repeat (apply elem_of_app in Ha as [Ha|Ha]);
          repeat (destruct (_ !! _) in Ha);
          repeat (apply elem_of_cons in Ha as [Ha|Ha]; [done|]);
          by apply elem_of_nil in Ha. }
    destruct Hflow as (-> & t1 & Ht1 & Hev1).
    unfold bind at 1. cbn [snd].
    unfold BaseNode_Run. unfold bind at 1. unfold get_node at 1.
    unfold bind at 1. unfold bind at 1.
    set (s2 := {| st_heap := st_heap s1; st_shared := _; st_trace := _ |}).
    destruct ((if decide (0 < size (successors (st_heap s2 !!! f)))%nat
               then emit (EvLog LogWontRunSuccessors) else ret ()) s2)
      as [[] s3] eqn:E3.
    assert (Hs3 : st_shared s3 = st_shared s2
                  ∧ ∃ t3, st_trace s3 = st_trace s2 ++ t3
                          ∧ ∀ m a, EvCall m a ∈ t3 → a = f).
    { revert E3. case_decide; unfold emit, ret; intros [= <-]; cbn.
      - split; [done|]. eexists. split; [reflexivity|].
        intros m a Ha. apply elem_of_cons in Ha as [Ha|Ha]; [done|].
        by apply elem_of_nil in Ha.
      - split; [done|]. exists []. split; [by rewrite app_nil_r|].
        intros m a Ha. by apply elem_of_nil in Ha. }
    destruct Hs3 as (Hsh3 & t3 & Ht3 & Hev3).
    rewrite BaseNode_runInternal_result. cbn [fst snd st_shared st_trace].
    rewrite Hsh3. subst s2. cbn [st_shared st_trace] in *.
    eexists. split; [reflexivity|]. cbn [st_shared st_trace].
    split; [done|].
    exists (t1 ++ t3 ++ [EvCall M_Prep f; EvCall M_Exec f; EvCall M_Post f]).
    split.
    - rewrite Ht3, Ht1. by rewrite <- !app_assoc.
    - intros m a Ha. apply elem_of_app in Ha as [Ha|Ha]; [by eapply Hev1|].
      apply elem_of_app in Ha as [Ha|Ha]; [by eapply Hev3|].
      repeat (apply elem_of_cons in Ha as [Ha|Ha]; [by simplify_eq|]).
      by apply elem_of_nil in Ha. }
  destruct H as (s' & -> & Hsh & Ht). cbn [fst snd]. auto.
Qed.

(** * Runs that do nothing *)

(** X29. A flow without a start node (never given one, or reset with
    [Start(nil)]) and a flow whose start node is a nil [*BaseNode]:
    [orchestrate] returns nil at once, for every amount of fuel, with
    the state untouched. *)
Theorem Flow_orchestrate_without_start_node :
  ∀ (fuel : nat) (f : Flow) (ps : option (gmap string value)) (s : state),
    startNode f = VNil ∨ startNode f = VPtr T_BaseNode None →
    Flow_orchestrate fuel f ps s = (Some VNil, s)
    ∧ Flow_orchestrate fuel (Flow_Start f VNil).1 ps s = (Some VNil, s)
    ∧ (Flow_Start f VNil).2 = VNil.
Proof.
  intros fuel f ps s Hstart. split; [|done].
  destruct Hstart as [Hstart|Hstart].
  - unfold Flow_orchestrate, Flow_orchestrate_with. by rewrite Hstart.
  - unfold Flow_orchestrate.
    rewrite (Flow_orchestrate_with_start _ _ _ _ None) by done.
    by destruct fuel.
Qed.

(** X30. The lifecycles the engine itself provides write nothing:
    [BaseNode.Run] (with which every node and flow type is run from
    outside the package) and [AsyncNode.runAsyncInternal] return nil and
    leave the heap and the store as they were; [Run] logs its warning
    exactly when the node has successors and enters no method of
    another node; the asynchronous lifecycle enters [ExecAsync] once
    when [maxRetries] is positive and never otherwise. *)
Theorem engine_lifecycles_write_nothing :
  ∀ (b : addr) (a : Node) (s : state),
    let run := BaseNode_Run b s in
    let async := AsyncNode_runAsyncInternal a s in
    run.1 = VNil
    ∧ st_heap run.2 = st_heap s
    ∧ st_shared run.2 = st_shared s
    ∧ st_trace run.2
      = st_trace s
        ++ (if decide (0 < size (successors (st_heap s !!! b)))%nat
            then [EvLog LogWontRunSuccessors] else [])
        ++ [EvCall M_Prep b; EvCall M_Exec b; EvCall M_Post b]
    ∧ async.1 = VNil
    ∧ st_heap async.2 = st_heap s
    ∧ st_shared async.2 = st_shared s
    ∧ st_trace async.2
      = st_trace s
        ++ [EvCall M_PrepAsync (node_base a)]
        ++ (if decide (0 < maxRetries a)
            then [EvCall M_ExecAsync (node_base a)] else [])
        ++ [EvCall M_PostAsync (node_base a)].
Proof.
  intros b a s run async.
  assert (Hrun : run
    = (VNil,
       {| st_heap := st_heap s; st_shared := st_shared s;
          st_trace :=
            st_trace s
            ++ (if decide (0 < size (successors (st_heap s !!! b)))%nat
                then [EvLog LogWontRunSuccessors] else [])
            ++ [EvCall M_Prep b; EvCall M_Exec b; EvCall M_Post b] |})).
  { subst run. unfold BaseNode_Run. unfold bind at 1. unfold get_node at 1.
    unfold bind at 1.
    case_decide; unfold emit, ret; rewrite BaseNode_runInternal_result; cbn.
    - by rewrite <- app_assoc.
    - done. }
  assert (Hasync : async
    = (VNil,
       {| st_heap := st_heap s; st_shared := st_shared s;
          st_trace :=
            st_trace s
            ++ [EvCall M_PrepAsync (node_base a)]
            ++ (if decide (0 < maxRetries a)
                then [EvCall M_ExecAsync (node_base a)] else [])
            ++ [EvCall M_PostAsync (node_base a)] |})).
  { subst async. unfold AsyncNode_runAsyncInternal,
      AsyncNode_runAsyncInternal_with, AsyncNode_PrepAsync, AsyncNode_PostAsync.
    unfold_M. cbn.
    rewrite AsyncNode_execAsyncInternal_with_spec.
    destruct (decide (0 < maxRetries a)); cbn; by rewrite <- ?app_assoc. }
  rewrite Hrun, Hasync. by repeat split.
Qed.

End Engine.

(** * Instances *)

(** The hypotheses of C3 hold for the node at 1 of [two_node_heap],
    whose only successor entry is "x": the no-op lifecycle returns nil,
    neither "<nil>" nor "default" is a key, and the loop returns nil. *)
Lemma C3_unresolved_action_ends_flow_witness :
  let s := initial_state (two_node_heap "x" (VPtr T_BaseNode (Some 2%nat))) in
  successors (st_heap s !!! 1%nat) !! "<nil>" = None
  ∧ successors (st_heap s !!! 1%nat) !! "default" = None
  ∧ (Flow_orchestrate_loop no_composite BaseNode_runInternal 1 (Some 1%nat) ∅
       VNil s).1 = Some VNil.
Proof.
  split; [reflexivity|]. split; [reflexivity|].
  apply (C3_unresolved_action_ends_flow no_composite BaseNode_runInternal
           0 1%nat ∅ VNil
           (initial_state (two_node_heap "x" (VPtr T_BaseNode (Some 2%nat)))));
    reflexivity.
Defined.

(** The hypotheses of C8 hold for a node on its last attempt and an
    async node with three attempts. *)
Lemma C8_default_fallback_is_an_ordinary_result_witness :
  let n := {| node_base := 1%nat; maxRetries := 3; wait := 0; curRetry := 2 |} in
  let a := NewNode 2%nat 3 0 in
  curRetry n = maxRetries n - 1
  ∧ (1 ≤ maxRetries a)%Z
  ∧ (Node_after_Exec Node_ExecFallback n VNil VNil (Some (VErr "boom"))).1
    = Done (VErr "boom")
  ∧ chan_recv (AsyncNode_execAsyncInternal_with no_composite
                 (λ _, Panics (VErr "boom")) AsyncNode_ExecFallbackAsync a VNil).1
    = VErr "boom".
Proof.
  cbn zeta. split; [reflexivity|]. split; [cbn; lia|].
  pose proof (C8_default_fallback_is_an_ordinary_result no_composite
                {| node_base := 1%nat; maxRetries := 3; wait := 0; curRetry := 2 |}
                (NewNode 2%nat 3 0) VNil VNil "boom" eq_refl ltac:(cbn; lia))
    as (_ & _ & H3 & _ & H5 & _).
  split; [exact H3 | exact H5].
Defined.

(** Two distinct actions on one node, and a second node. *)
Lemma Next_changes_one_entry_witness :
  let s := initial_state (two_node_heap "x" VNil) in
  let node := VPtr T_BaseNode (Some 2%nat) in
  normalize_action "x" ≠ normalize_action "y"
  ∧ 2%nat ≠ 1%nat
  ∧ (Flow_GetNextNode 1%nat "x" (BaseNode_Next 1%nat node "y" s).2).1
    = (Flow_GetNextNode 1%nat "x" s).1.
Proof.
  cbn zeta.
  assert (H1 : normalize_action "x" ≠ normalize_action "y") by done.
  assert (H2 : 2%nat ≠ 1%nat) by done.
  split; [exact H1|]. split; [exact H2|].
  pose proof (Next_changes_one_entry 1%nat 2%nat (VPtr T_BaseNode (Some 2%nat))
                "y" "x" (initial_state (two_node_heap "x" VNil)) H1 H2)
    as (_ & _ & _ & _ & H).
  exact H.
Defined.

(** The situation of the package's transition test: a "default"
    successor and an action that is not registered. *)
Lemma GetNextNode_unknown_action_ignores_default_witness :
  let d := VPtr T_BaseNode (Some 2%nat) in
  let s := initial_state (two_node_heap "default" d) in
  "unknown_action" ≠ ""
  ∧ successors (st_heap s !!! 1%nat) !! "unknown_action" = None
  ∧ successors (st_heap s !!! 1%nat) !! "default" = Some d
  ∧ (Flow_GetNextNode 1%nat "unknown_action" s).1 = VNil
  ∧ (transitionTestFlow_GetNextNode 1%nat "unknown_action" s).1 = d.
Proof.
  cbn zeta.
  assert (H1 : "unknown_action" ≠ "") by done.
  split; [exact H1|]. split; [reflexivity|]. split; [reflexivity|].
  pose proof (GetNextNode_unknown_action_ignores_default 1%nat "unknown_action"
                (VPtr T_BaseNode (Some 2%nat))
                (initial_state (two_node_heap "default"
                                  (VPtr T_BaseNode (Some 2%nat))))
                H1 eq_refl eq_refl) as (Ha & _ & Hb).
  split; [exact Ha | exact Hb].
Defined.

(** A registered action. *)
Lemma transitionTestFlow_GetNextNode_agrees_witness :
  let s := initial_state (two_node_heap "x" (VPtr T_BaseNode (Some 2%nat))) in
  is_Some (successors (st_heap s !!! 1%nat) !! normalize_action "x")
  ∧ (transitionTestFlow_GetNextNode 1%nat "x" s).1
    = (Flow_GetNextNode 1%nat "x" s).1.
Proof.
  cbn zeta.
  assert (H1 : is_Some
                 (successors
                    (st_heap (initial_state
                                (two_node_heap "x" (VPtr T_BaseNode (Some 2%nat))))
                     !!! 1%nat) !! normalize_action "x")).
  { eexists. reflexivity. }
  split; [exact H1|].
  exact (transitionTestFlow_GetNextNode_agrees 1%nat "x" _ (or_introl H1)).
Defined.

(** Three attempts, 10ms apart, on an [ExecAsync] that always panics. *)
Lemma AsyncNode_execAsyncInternal_exhausted_counts_witness :
  let a := NewNode 1%nat 3 10000000 in
  let execAsync := λ _ : value, Panics (VErr "boom") in
  let out := AsyncNode_execAsyncInternal_with no_composite execAsync
               AsyncNode_ExecFallbackAsync a VNil in
  (1 ≤ maxRetries a)%Z
  ∧ execAsync VNil = Panics (VErr "boom")
  ∧ recovered_error no_composite (VErr "boom") = Some (VErr "boom")
  ∧ out.1 = Some (VErr "boom")
  ∧ calls M_ExecAsync out.2 = 3%nat
  ∧ sleeps out.2 = [10000000; 10000000].
Proof.
  cbn zeta.
  assert (H1 : (1 ≤ maxRetries (NewNode 1%nat 3 10000000))%Z) by (cbn; lia).
  split; [exact H1|]. split; [reflexivity|]. split; [reflexivity|].
  pose proof (AsyncNode_execAsyncInternal_exhausted_counts no_composite
                (λ _ : value, Panics (VErr "boom")) AsyncNode_ExecFallbackAsync
                (NewNode 1%nat 3 10000000) VNil (VErr "boom") (VErr "boom")
                H1 eq_refl eq_refl) as (Ha & Hb & _ & Hc).
  split; [exact Ha|]. split; [exact Hb | exact Hc].
Defined.

(** An [Exec] that returns 7. *)
Lemma executors_agree_when_Exec_returns_witness :
  let exec := λ _ : value, Returns (VInt 7) in
  let n := NewNode 1%nat 2 0 in
  exec VNil = Returns (VInt 7)
  ∧ chan_recv (AsyncNode_execAsyncInternal_with no_composite exec
                 AsyncNode_ExecFallbackAsync n VNil).1
    = (Node_execInternal_with exec Node_ExecFallback n VNil).1.2.
Proof.
  cbn zeta. split; [reflexivity|].
  exact (proj1 (executors_agree_when_Exec_returns no_composite
                  (λ _ : value, Returns (VInt 7)) Node_ExecFallback
                  AsyncNode_ExecFallbackAsync (NewNode 1%nat 2 0) VNil (VInt 7)
                  eq_refl)).
Defined.

(** An [Exec] that panics with an error. *)
Lemma executors_differ_when_Exec_panics_witness :
  let exec := λ _ : value, Panics (VErr "boom") in
  let n := NewNode 1%nat 2 0 in
  (1 ≤ maxRetries n)%Z
  ∧ exec VNil = Panics (VErr "boom")
  ∧ (Node_execInternal_with exec Node_ExecFallback n VNil).1.2 = VNil
  ∧ chan_recv (AsyncNode_execAsyncInternal_with no_composite exec
                 AsyncNode_ExecFallbackAsync n VNil).1 = VErr "boom".
Proof.
  cbn zeta.
  assert (H1 : (1 ≤ maxRetries (NewNode 1%nat 2 0))%Z) by (cbn; lia).
  split; [exact H1|]. split; [reflexivity|].
  exact (executors_differ_when_Exec_panics no_composite
           (λ _ : value, Panics (VErr "boom")) (NewNode 1%nat 2 0) VNil "boom"
           H1 eq_refl).
Defined.

(** Three items whose tasks finish in the order 2, 0, 1. *)
Lemma AsyncBatchNode_agrees_with_parallel_witness :
  let a := NewNode 1%nat 1 0 in
  let items := [VInt 1; VInt 2; VInt 3] in
  let double := λ v : value,
                  match v with
                  | VInt z => Returns (VInt (z * 2))
                  | _ => Returns (VErr "invalid item type for async batch")
                  end in
  [2; 0; 1]%nat ≡ₚ seq 0 (length items)
  ∧ ∃ s,
      par_run no_composite double AsyncNode_ExecFallbackAsync a
        ((StepTask <$> [2; 0; 1]%nat)
         ++ [StepCollect; StepOuterReturn; StepReceive])
        (par_start (VList items)) = Some s
      ∧ ps_received s
        = (AsyncBatchNode_execAsyncInternal_with no_composite double
             AsyncNode_ExecFallbackAsync a (VList items)).1.
Proof.
  cbn zeta.
  assert (H1 : [2; 0; 1]%nat ≡ₚ seq 0 (length [VInt 1; VInt 2; VInt 3])).
  { cbn. etrans; [apply Permutation_swap|]. apply perm_skip. apply Permutation_swap. }
  split; [exact H1|].
  exact (AsyncBatchNode_agrees_with_parallel no_composite _
           AsyncNode_ExecFallbackAsync (NewNode 1%nat 1 0)
           [VInt 1; VInt 2; VInt 3] [2; 0; 1]%nat H1).
Defined.

(** The node of the package's retry test: three attempts, 10ms apart,
    a counter at zero, the error "transient error". *)
Lemma retryTestNode_execInternal_retries_witness :
  let n := {| rt_node := NewNode 1%nat 3 10000000; rt_retryCount := 0;
              rt_mockErr := VErr "transient error" |} in
  let out := retryTestNode_execInternal no_composite n VNil in
  rt_mockErr n = VErr "transient error"
  ∧ (1 ≤ maxRetries (rt_node n))%Z
  ∧ (- 2 ^ 63 ≤ rt_retryCount n)%Z
  ∧ (rt_retryCount n + maxRetries (rt_node n) < 2 ^ 63)%Z
  ∧ out.1.2 = VErr "transient error"
  ∧ rt_retryCount out.1.1 = 3.
Proof.
  cbn zeta.
  set (n := {| rt_node := NewNode 1%nat 3 10000000; rt_retryCount := 0;
               rt_mockErr := VErr "transient error" |}).
  assert (H2 : (1 ≤ maxRetries (rt_node n))%Z) by (cbn; lia).
  assert (H3 : (- 2 ^ 63 ≤ rt_retryCount n)%Z) by (cbn; lia).
  assert (H4 : (rt_retryCount n + maxRetries (rt_node n) < 2 ^ 63)%Z)
    by (cbn; lia).
  split; [reflexivity|]. split; [exact H2|]. split; [exact H3|].
  split; [exact H4|].
  pose proof (retryTestNode_execInternal_retries no_composite n VNil
                "transient error" eq_refl H2 H3 H4) as (Ha & Hb & _).
  split; [exact Ha | exact Hb].
Defined.

(** A node whose successor under "<nil>" is itself. *)
Lemma Flow_orchestrate_loop_diverges_on_nil_cycle_witness :
  let s := initial_state (two_node_heap "<nil>" (VPtr T_BaseNode (Some 1%nat))) in
  successors (st_heap s !!! 1%nat) !! "<nil>"
  = Some (VPtr T_BaseNode (Some 1%nat))
  ∧ (Flow_orchestrate_loop no_composite BaseNode_runInternal 5 (Some 1%nat) ∅
       VNil s).1 = None.
Proof.
  cbn zeta. split; [reflexivity|].
  apply (Flow_orchestrate_loop_diverges_on_nil_cycle no_composite
           (λ a, a = 1%nat)); [|reflexivity].
  intros a ->. exists 1%nat. split; reflexivity.
Defined.

(** The outer goroutine returns and the caller receives while the
    three tasks are still running. *)
Lemma par_received_nil_or_complete_witness :
  let a := NewNode 1%nat 1 0 in
  let items := [VInt 1; VInt 2; VInt 3] in
  let run := par_run no_composite AsyncNode_ExecAsync
               AsyncNode_ExecFallbackAsync a [StepOuterReturn; StepReceive]
               (par_start (VList items)) in
  let s := default (par_start VNil) run in
  run = Some s
  ∧ ps_received s = Some VNil
  ∧ ps_collector s ≠ CollSent.
Proof.
  cbn zeta.
  set (run := par_run no_composite AsyncNode_ExecAsync
                AsyncNode_ExecFallbackAsync (NewNode 1%nat 1 0)
                [StepOuterReturn; StepReceive]
                (par_start (VList [VInt 1; VInt 2; VInt 3]))).
  assert (H1 : run = Some (default (par_start VNil) run)) by reflexivity.
  assert (H2 : ps_received (default (par_start VNil) run) = Some VNil)
    by reflexivity.
  split; [exact H1|]. split; [exact H2|].
  destruct (par_received_nil_or_complete no_composite AsyncNode_ExecAsync
              AsyncNode_ExecFallbackAsync (NewNode 1%nat 1 0)
              [VInt 1; VInt 2; VInt 3] [StepOuterReturn; StepReceive]
              (default (par_start VNil) run) VNil H1 H2)
    as [(_ & H & _)|(H & _)]; [exact H|discriminate H].
Defined.

(** A nil input, the outer goroutine returning before the receive. *)
Lemma par_no_slice_receives_empty_list_witness :
  let a := NewNode 1%nat 1 0 in
  let run := par_run no_composite AsyncNode_ExecAsync
               AsyncNode_ExecFallbackAsync a [StepOuterReturn; StepReceive]
               (par_start VNil) in
  let s := default (par_start VNil) run in
  assert_slice VNil = None
  ∧ run = Some s
  ∧ ps_received s = Some (VList [])
  ∧ VList [] = VList [].
Proof.
  cbn zeta.
  set (run := par_run no_composite AsyncNode_ExecAsync
                AsyncNode_ExecFallbackAsync (NewNode 1%nat 1 0)
                [StepOuterReturn; StepReceive] (par_start VNil)).
  assert (H1 : run = Some (default (par_start VNil) run)) by reflexivity.
  assert (H2 : ps_received (default (par_start VNil) run) = Some (VList []))
    by reflexivity.
  split; [reflexivity|]. split; [exact H1|]. split; [exact H2|].
  exact (par_no_slice_receives_empty_list no_composite AsyncNode_ExecAsync
           AsyncNode_ExecFallbackAsync (NewNode 1%nat 1 0) VNil
           [StepOuterReturn; StepReceive] (default (par_start VNil) run)
           (VList []) eq_refl H1 H2).
Defined.

(** Four distinct addresses. *)
Lemma CreateResearchAgent_graph_witness :
  let out := CreateResearchAgent 0%nat 1%nat 2%nat 3%nat (initial_state ∅) in
  NoDup [0; 1; 2; 3]%nat
  ∧ (Flow_GetNextNode 2%nat "decide" out.2).1
    = VPtr (T_Custom "DecideAction") (Some 1%nat)
  ∧ (Flow_GetNextNode 1%nat "error" out.2).1 = VNil.
Proof.
  cbn zeta.
  assert (H1 : NoDup [0; 1; 2; 3]%nat).
  { apply NoDup_ListNoDup. repeat constructor; cbn; lia. }
  split; [exact H1|].
  pose proof (CreateResearchAgent_graph 0%nat 1%nat 2%nat 3%nat
                (initial_state ∅) H1)
    as (_ & _ & _ & _ & _ & _ & _ & _ & Ha & _ & Hb).
  split; [exact Hb | exact Ha].
Defined.

(** A flow made with a nil start node. *)
Lemma Flow_orchestrate_without_start_node_witness :
  let f := NewFlow 0%nat VNil in
  let s := initial_state ∅ in
  (startNode f = VNil ∨ startNode f = VPtr T_BaseNode None)
  ∧ Flow_orchestrate no_composite 7 f None s = (Some VNil, s).
Proof.
  cbn zeta.
  assert (H1 : startNode (NewFlow 0%nat VNil) = VNil
               ∨ startNode (NewFlow 0%nat VNil) = VPtr T_BaseNode None)
    by (by left).
  split; [exact H1|].
  exact (proj1 (Flow_orchestrate_without_start_node no_composite 7
                  (NewFlow 0%nat VNil) None (initial_state ∅) H1)).
Defined.
